(** * HetznerAi: traffic monitor, threshold staging and server lifecycle

    A shallow embedding of [src/main.py] (class [HetznerAutomation]) and the
    properties of its threshold-tracking and lifecycle code.

    Modelling choices, all taken from the source:
    - [self.notified_thresholds] is a Python dict from server name to the
      last threshold notified; it is a [gmap string Q] here.  A missing key
      is read with [.get(key, 0)], i.e. with default [0].
    - Percentages (usage and thresholds) are Python numbers.  They are
      rationals [Q] here; comparisons are the exact ones ([Qle_bool]), the
      rounding of floating point division is not modelled.
    - The cloud provider (hcloud), the Telegram bot, the clock and the
      logger are the outside world.  Every call to them is appended to a
      chronological [trace]; whether a call raises is decided by an oracle
      [fails] that sees the whole history and the call, so failures may
      depend on anything that happened before.
    - Python exceptions are an explicit [Raised] outcome; [try ... except]
      is [try_except].  A method without [return] returns [PyNone]. *)

From Stdlib Require Import ZArith QArith Lqa List Sorted Ascii String.
From stdpp Require Import gmap strings list fin_maps sorting.

Local Open Scope string_scope.
Local Open Scope list_scope.

(** ** Data model *)

(** The attributes of an hcloud server object that the program reads. *)
Record Server : Type := mkServer {
  name : string;
  status : string;
  server_type : string;            (* server.server_type.name *)
  image : string;                  (* server.image.name *)
  location : string;               (* server.datacenter.location.name *)
  ssh_keys : list string;          (* [key.name for key in server.ssh_keys] *)
  primary_disk_size : option Z;    (* None: the attribute is None *)
  ipv4 : string                    (* server.public_net.ipv4.ip *)
}.

(** The [server_config] dict built by [rebuild_server] and passed,
    field by field, to [hcloud.servers.create]. *)
Record ServerConfig : Type := mkServerConfig {
  sc_name : string;
  sc_server_type : string;
  sc_image : string;
  sc_location : string;
  sc_ssh_keys : list string
}.

(** The keys of [config.json] read by the modelled methods. *)
Record Config : Type := mkConfig {
  notification_thresholds : list Q;
  traffic_limit_percent : Q;
  cloudflare_enable : bool;
  cloudflare_subdomain : string;   (* cf_config.get('subdomain', '') *)
  cloudflare_domain : string
}.

(** The dict returned by [get_traffic_usage]. *)
Record TrafficInfo : Type := mkTrafficInfo {
  total : Z;
  used : Z;
  remaining : Z
}.

(** Values returned by the methods: Python's [None], booleans and
    integers. *)
Inductive py_value : Type :=
| PyNone
| PyBool (b : bool)
| PyInt (n : Z).

(** Python truthiness, as tested by [if self.delete_server(...)]. *)
Definition truthy (v : py_value) : bool :=
  match v with
  | PyNone => false
  | PyBool b => b
  | PyInt n => negb (n =? 0)%Z
  end.

(** Telegram messages sent with [send_telegram_message]; the constructor
    stands for the text template, its arguments for the interpolated
    values (the time of day is not modelled). *)
Inductive Message : Type :=
| TrafficWarning (server : string) (usage_percent : Q) (server_status : string)
| TrafficExceeded (server : string) (usage_percent : Q)
| ShutdownDone (server : string).

(** Replies of the [/stop] command handler. *)
Inductive Reply : Type :=
| StopDeleted (server : string)
| StopFailed (server : string)
| StopUsage.

Inductive Level : Type := INFO | WARNING | ERROR.

(** Log records, one constructor per [self.logger] call site. *)
Inductive LogRecord : Type :=
| ListServersFailed
| TrafficProbeFailed (server : string)
| CheckStarted
| CheckServerFailed (server : string)
| ThresholdReached (server : string) (threshold : Q)
| LimitExceeded (server : string)
| ServerDeleted (server : string)
| ServerNotDeleted (server : string)
| DeleteServerFailed (server : string)
| RebuildServerFailed (server : string)
| DnsUpdated (domain ip : string)
| DnsUpdateFailed
| TelegramFailed
| ShutdownStarted.

(** Calls to the outside world, in the order they are made. *)
Inductive Event : Type :=
| GetAll                              (* hcloud.servers.get_all() *)
| GetByName (server : string)         (* hcloud.servers.get_by_name(name) *)
| Delete (server : string)            (* server.delete() *)
| Create (spec : ServerConfig)        (* hcloud.servers.create(...) *)
| SendMessage (m : Message)           (* bot.send_message(chat_id, m) *)
| ReplyTo (r : Reply)                 (* bot.reply_to(message, r) *)
| Sleep (seconds : Z)                 (* time.sleep(seconds) *)
| Log (level : Level) (record : LogRecord).

Inductive exn : Type :=
| APIException
| TelegramException
| IndexError
| ZeroDivisionError
| TypeError.

(** The state of the program and of the world around it. *)
Record World : Type := mkWorld {
  notified_thresholds : gmap string Q;   (* self.notified_thresholds *)
  cloud : list Server;                   (* servers that exist at the provider *)
  trace : list Event                     (* calls made so far, oldest first *)
}.

Definition with_notified (f : gmap string Q → gmap string Q) (w : World) : World :=
  mkWorld (f (notified_thresholds w)) (cloud w) (trace w).

Definition with_cloud (f : list Server → list Server) (w : World) : World :=
  mkWorld (notified_thresholds w) (f (cloud w)) (trace w).

Definition emit (ev : Event) (w : World) : World :=
  mkWorld (notified_thresholds w) (cloud w) (trace w ++ [ev]).

(** ** A state monad with exceptions *)

Inductive outcome (A : Type) : Type :=
| Ok (a : A)
| Raised (e : exn).
Arguments Ok {A} a.
Arguments Raised {A} e.

Definition M (A : Type) : Type := World → outcome A * World.

Definition ret {A} (a : A) : M A := fun w => (Ok a, w).

Definition raise {A} (e : exn) : M A := fun w => (Raised e, w).

Definition bind {A B} (m : M A) (k : A → M B) : M B :=
  fun w =>
    match m w with
    | (Ok a, w') => k a w'
    | (Raised e, w') => (Raised e, w')
    end.

Definition try_except {A} (body : M A) (handler : exn → M A) : M A :=
  fun w =>
    match body w with
    | (Ok a, w') => (Ok a, w')
    | (Raised e, w') => handler e w'
    end.

Definition gets {A} (f : World → A) : M A := fun w => (Ok (f w), w).

Definition modify (f : World → World) : M unit := fun w => (Ok tt, f w).

Declare Scope py_scope.
Delimit Scope py_scope with py.
Notation "x <- m ;; k" := (bind m (fun x => k))
  (at level 100, m at next level, right associativity) : py_scope.
Notation "m ;; k" := (bind m (fun _ => k))
  (at level 100, right associativity) : py_scope.
Local Open Scope py_scope.

(** [for x in xs: body(x)] *)
Fixpoint for_each {A} (xs : list A) (body : A → M py_value) : M py_value :=
  match xs with
  | [] => ret PyNone
  | x :: rest => body x ;; for_each rest body
  end.

(** The result and the final world of a run. *)
Definition result {A} (r : outcome A * World) : outcome A := fst r.
Definition after {A} (r : outcome A * World) : World := snd r.

(** [last_notified < threshold] on rationals. *)
Definition Qlt_bool (x y : Q) : bool := negb (Qle_bool y x).

(** [message.text.split(' ', 1)[1]]: what follows the first space;
    [None] when there is no space (Python raises [IndexError]). *)
Fixpoint after_first_space (text : string) : option string :=
  match text with
  | EmptyString => None
  | String c rest =>
      if Ascii.eqb c " "%char then Some rest else after_first_space rest
  end.

Section HetznerAutomation.

(** [self.config]. *)
Variable config : Config.

(** The outside world: [fails history call] tells whether [call], made
    after [history], raises. *)
Variable fails : list Event → Event → bool.

(** The attributes the provider chooses for a server created after
    [history] (address, status, disk); the requested ones are taken from
    the request. *)
Variable fresh : list Event → Server.

(** A call to the outside world: recorded, then it raises or returns. *)
Definition external (ev : Event) (e : exn) : M unit :=
  fun w => if fails (trace w) ev then (Raised e, emit ev w) else (Ok tt, emit ev w).

(** [self.logger.info/warning/error(...)] *)
Definition log (level : Level) (record : LogRecord) : M unit :=
  modify (emit (Log level record)).

(** [time.sleep(seconds)] *)
Definition time_sleep (seconds : Z) : M unit :=
  modify (emit (Sleep seconds)).

(** [self.hcloud.servers.get_all()] *)
Definition servers_get_all : M (list Server) :=
  external GetAll APIException ;; gets cloud.

(** [self.hcloud.servers.get_by_name(name)]: the server or [None]. *)
Definition servers_get_by_name (server_name : string) : M (option Server) :=
  external (GetByName server_name) APIException ;;
  gets (fun w => List.find (fun s => String.eqb (name s) server_name) (cloud w)).

(** [server.delete()] *)
Definition server_delete (server : Server) : M unit :=
  external (Delete (name server)) APIException ;;
  modify (with_cloud (List.filter (fun s => negb (String.eqb (name s) (name server))))).

(** [self.hcloud.servers.create(name=..., server_type=..., image=...,
    location=..., ssh_keys=...)] *)
Definition servers_create (spec : ServerConfig) : M Server :=
  external (Create spec) APIException ;;
  history <- gets trace ;;
  let new_server :=
    mkServer (sc_name spec) (status (fresh history)) (sc_server_type spec)
             (sc_image spec) (sc_location spec) (sc_ssh_keys spec)
             (primary_disk_size (fresh history)) (ipv4 (fresh history)) in
  modify (with_cloud (fun servers => (servers ++ [new_server])%list)) ;;
  ret new_server.

(** ** The methods of [HetznerAutomation] *)

Definition send_telegram_message (message : Message) : M py_value :=
  try_except
    (external (SendMessage message) TelegramException ;; ret PyNone)
    (fun _ => log ERROR TelegramFailed ;; ret PyNone).

Definition get_all_servers : M (list Server) :=
  try_except
    servers_get_all
    (fun _ => log ERROR ListServersFailed ;; ret []).

Definition get_traffic_usage (server : Server) : M TrafficInfo :=
  try_except
    (match primary_disk_size server with
     | Some size =>
         let total_traffic := (size * 1000)%Z in
         let used_traffic := 500%Z in
         ret (mkTrafficInfo total_traffic used_traffic (total_traffic - used_traffic)%Z)
     | None => raise TypeError
     end)
    (fun _ =>
       log ERROR (TrafficProbeFailed (name server)) ;;
       ret (mkTrafficInfo 1000 0 1000)).

(** [(traffic_info['used'] / traffic_info['total']) * 100] *)
Definition usage_percent_of (traffic_info : TrafficInfo) : M Q :=
  if (total traffic_info =? 0)%Z then raise ZeroDivisionError
  else ret ((inject_Z (used traffic_info) / inject_Z (total traffic_info)) * 100)%Q.

(** The [for threshold in ...] loop of [check_notification_thresholds];
    the first branch ends with [break]. *)
Fixpoint scan_thresholds (server : Server) (usage_percent last_notified : Q)
    (thresholds : list Q) : M py_value :=
  match thresholds with
  | [] => ret PyNone
  | threshold :: rest =>
      if Qle_bool threshold usage_percent && Qlt_bool last_notified threshold then
        send_telegram_message
          (TrafficWarning (name server) usage_percent (status server)) ;;
        modify (with_notified (insert (name server) threshold)) ;;
        log INFO (ThresholdReached (name server) threshold) ;;
        ret PyNone
      else scan_thresholds server usage_percent last_notified rest
  end.

Definition check_notification_thresholds (server : Server) (usage_percent : Q)
    : M py_value :=
  let server_key := name server in
  last_notified <- gets (fun w => default 0%Q (notified_thresholds w !! server_key)) ;;
  scan_thresholds server usage_percent last_notified (notification_thresholds config).

Definition delete_server (server_name : string) : M py_value :=
  try_except
    (server <- servers_get_by_name server_name ;;
     match server with
     | Some server => server_delete server ;; ret (PyBool true)
     | None => ret (PyBool false)          (* falls through to [return False] *)
     end)
    (fun _ => log ERROR (DeleteServerFailed server_name) ;; ret (PyBool false)).

Definition handle_traffic_exceeded (server : Server) (usage_percent : Q)
    : M py_value :=
  send_telegram_message (TrafficExceeded (name server) usage_percent) ;;
  log WARNING (LimitExceeded (name server)) ;;
  deleted <- delete_server (name server) ;;
  if truthy deleted then
    log INFO (ServerDeleted (name server)) ;;
    (* 重置通知阈值: self.notified_thresholds.pop(server.name, None) *)
    modify (with_notified (delete (name server))) ;;
    ret PyNone
  else
    log ERROR (ServerNotDeleted (name server)) ;;
    ret PyNone.

(** The part of the loop body of [check_traffic_and_notify] that follows
    the computation of [usage_percent] (source lines 205-210). *)
Definition process_sample (server : Server) (usage_percent : Q) : M py_value :=
  check_notification_thresholds server usage_percent ;;
  if Qle_bool (traffic_limit_percent config) usage_percent then
    handle_traffic_exceeded server usage_percent
  else ret PyNone.

Definition check_traffic_and_notify : M py_value :=
  log INFO CheckStarted ;;
  servers <- get_all_servers ;;
  for_each servers (fun server =>
    try_except
      (traffic_info <- get_traffic_usage server ;;
       usage_percent <- usage_percent_of traffic_info ;;
       process_sample server usage_percent)
      (fun _ => log ERROR (CheckServerFailed (name server)) ;; ret PyNone)).

Definition update_cloudflare_dns (ip_address : string) : M py_value :=
  if negb (cloudflare_enable config) then ret PyNone
  else
    try_except
      (let domain := (cloudflare_subdomain config ++ "." ++ cloudflare_domain config)%string in
       log INFO (DnsUpdated domain ip_address) ;;
       ret PyNone)
      (fun _ => log ERROR DnsUpdateFailed ;; ret PyNone).

Definition rebuild_server (server_name : string) : M py_value :=
  try_except
    (server <- servers_get_by_name server_name ;;
     match server with
     | None => ret (PyBool false)
     | Some server =>
         let server_config :=
           mkServerConfig (name server) (server_type server) (image server)
                          (location server) (ssh_keys server) in
         server_delete server ;;
         time_sleep 5 ;;
         new_server <- servers_create server_config ;;
         (if cloudflare_enable config
          then update_cloudflare_dns (ipv4 new_server)
          else ret PyNone) ;;
         ret (PyBool true)
     end)
    (fun _ => log ERROR (RebuildServerFailed server_name) ;; ret (PyBool false)).

Definition shutdown_servers : M py_value :=
  log INFO ShutdownStarted ;;
  servers <- get_all_servers ;;
  for_each servers (fun server =>
    deleted <- delete_server (name server) ;;
    if truthy deleted then send_telegram_message (ShutdownDone (name server))
    else ret PyNone).

(** The [/stop <name>] command handler; only [IndexError] is caught. *)
Definition stop_server (message_text : string) : M py_value :=
  try_except
    (server_name <- match after_first_space message_text with
                    | Some rest => ret rest
                    | None => raise IndexError
                    end ;;
     deleted <- delete_server server_name ;;
     if truthy deleted then
       external (ReplyTo (StopDeleted server_name)) TelegramException ;; ret PyNone
     else
       external (ReplyTo (StopFailed server_name)) TelegramException ;; ret PyNone)
    (fun e =>
       match e with
       | IndexError => external (ReplyTo StopUsage) TelegramException ;; ret PyNone
       | _ => raise e
       end).

End HetznerAutomation.

(** ** Observations on runs *)

(** The events a run from [w] to [w'] appended to the trace. *)
Definition new_events (w w' : World) : list Event :=
  drop (length (trace w)) (trace w').

(** The thresholds logged as reached for server [key], oldest first: the
    thresholds that [check_notification_thresholds] fired on. *)
Fixpoint thresholds_reached (key : string) (events : list Event) : list Q :=
  match events with
  | [] => []
  | Log INFO (ThresholdReached server threshold) :: rest =>
      if String.eqb server key then threshold :: thresholds_reached key rest
      else thresholds_reached key rest
  | _ :: rest => thresholds_reached key rest
  end.

(** The last notified threshold as the code reads it: [.get(key, 0)]. *)
Definition last_notified (w : World) (key : string) : Q :=
  default 0%Q (notified_thresholds w !! key).

(** [threshold] is crossed by the usage and not yet notified. *)
Definition newly_crossed (usage_percent last : Q) (threshold : Q) : Prop :=
  (threshold <= usage_percent)%Q ∧ (last < threshold)%Q.

(** What a failed [bot.send_message] leaves in the trace. *)
Definition telegram_errors (fails : list Event → Event → bool)
    (history : list Event) (message : Message) : list Event :=
  if fails history (SendMessage message) then [Log ERROR TelegramFailed] else [].

(** The events of one fired warning. *)
Definition warning_events (fails : list Event → Event → bool)
    (history : list Event) (server : Server) (usage_percent threshold : Q)
    : list Event :=
  let message := TrafficWarning (name server) usage_percent (status server) in
  [SendMessage message] ++ telegram_errors fails history message
    ++ [Log INFO (ThresholdReached (name server) threshold)].

(** ** Runs and their parts *)

(** Successive [check_notification_thresholds] calls, one per element of
    [calls], with nothing else in between: the world after each call ... *)
Fixpoint run_checks (config : Config) (fails : list Event → Event → bool)
    (calls : list (Server * Q)) (w : World) : list World :=
  match calls with
  | [] => []
  | (server, usage_percent) :: rest =>
      let w' := after (check_notification_thresholds config fails server usage_percent w) in
      w' :: run_checks config fails rest w'
  end.

(** ... and the world after the last one. *)
Fixpoint checks_end (config : Config) (fails : list Event → Event → bool)
    (calls : list (Server * Q)) (w : World) : World :=
  match calls with
  | [] => w
  | (server, usage_percent) :: rest =>
      checks_end config fails rest
        (after (check_notification_thresholds config fails server usage_percent w))
  end.

(** The usages sampled for server [key] in [calls], in order. *)
Definition usages_of (key : string) (calls : list (Server * Q)) : list Q :=
  map snd (filter (fun call => String.eqb (name (fst call)) key = true) calls).

(** [get_by_name] on the provider's current servers. *)
Definition lookup_server (server_name : string) (w : World) : option Server :=
  List.find (fun s => String.eqb (name s) server_name) (cloud w).

(** The servers left after deleting the one called [server_name]. *)
Definition without_server (server_name : string) (servers : list Server)
    : list Server :=
  List.filter (fun s => negb (String.eqb (name s) server_name)) servers.

(** The provider raises during [delete_server server_name] run from [w]:
    in the lookup, or in the delete of the server found. *)
Definition provider_error (fails : list Event → Event → bool)
    (server_name : string) (w : World) : Prop :=
  fails (trace w) (GetByName server_name) = true
  ∨ (∃ server, lookup_server server_name w = Some server ∧
               fails (trace w ++ [GetByName server_name]) (Delete (name server)) = true).

(** The world in which [handle_traffic_exceeded] calls [delete_server]:
    the alert has been sent and the warning logged. *)
Definition alerted (fails : list Event → Event → bool) (server : Server)
    (usage_percent : Q) (w : World) : World :=
  let message := TrafficExceeded (name server) usage_percent in
  mkWorld (notified_thresholds w) (cloud w)
    (trace w ++ [SendMessage message] ++ telegram_errors fails (trace w) message
       ++ [Log WARNING (LimitExceeded (name server))]).

(** The [server_config] that [rebuild_server] reads off a server. *)
Definition config_of (server : Server) : ServerConfig :=
  mkServerConfig (name server) (server_type server) (image server)
                 (location server) (ssh_keys server).

(** The calls of a rebuild up to the create. *)
Definition rebuild_calls (server : Server) : list Event :=
  [GetByName (name server); Delete (name server); Sleep 5; Create (config_of server)].

(** The names in the "shutdown done" messages of [events], oldest first. *)
Fixpoint shutdown_notices (events : list Event) : list string :=
  match events with
  | [] => []
  | SendMessage (ShutdownDone server) :: rest => server :: shutdown_notices rest
  | _ :: rest => shutdown_notices rest
  end.

(** The body of the loop of [shutdown_servers]. *)
Definition shutdown_step (fails : list Event → Event → bool) (server : Server)
    : M py_value :=
  deleted <- delete_server fails (name server) ;;
  if truthy deleted then send_telegram_message fails (ShutdownDone (name server))
  else ret PyNone.

(** Whether the calls that delete [server] go through, for a provider whose
    failures [bad] do not depend on the history. *)
Definition deletable (bad : Event → bool) (server : Server) : bool :=
  negb (bad (GetByName (name server)) || bad (Delete (name server))).

(** The body of the loop of [check_traffic_and_notify]. *)
Definition check_step (config : Config) (fails : list Event → Event → bool)
    (server : Server) : M py_value :=
  try_except
    (traffic_info <- get_traffic_usage server ;;
     usage_percent <- usage_percent_of traffic_info ;;
     process_sample config fails server usage_percent)
    (fun _ => log ERROR (CheckServerFailed (name server)) ;; ret PyNone).

(** The percentage that [check_traffic_and_notify] computes for a server
    whose disk has [size] GB: [(500 / (size * 1000)) * 100]. *)
Definition sampled_usage (size : Z) : Q :=
  (inject_Z 500 / inject_Z (size * 1000) * 100)%Q.

(** The percentage computed from the default sample of a failed probe:
    [(0 / 1000) * 100]. *)
Definition default_usage : Q := (inject_Z 0 / inject_Z 1000 * 100)%Q.

(** Events of a pass in which no server is looked up, deleted or reported
    over the limit, and no threshold above 50 is reached. *)
Definition calm (ev : Event) : Prop :=
  match ev with
  | GetByName _ | Delete _ | Create _ => False
  | SendMessage (TrafficExceeded _ _) => False
  | Log INFO (ThresholdReached _ threshold) => (threshold <= 50)%Q
  | _ => True
  end.

(** The servers of a listing that are called [key]. *)
Definition named (key : string) (servers : list Server) : list Server :=
  List.filter (fun s => String.eqb (name s) key) servers.

(** [text] contains no space. *)
Definition no_space (text : string) : Prop :=
  " "%char ∉ list_ascii_of_string text.

(** [int(x)] on a number: truncation toward zero. *)
Definition py_int (x : Q) : Z := Z.quot (Qnum x) (Z.pos (Qden x)).

(** [s * n] on a one-character string: [n] copies, none when [n <= 0]. *)
Definition py_repeat {A} (c : A) (n : Z) : list A := replicate (Z.to_nat n) c.

(** The characters of the progress bar of [show_traffic]. *)
Inductive Cell : Type :=
| Full      (* '█' *)
| Empty.    (* '░' *)

(** The progress bar of [show_traffic] (source lines 159-161). *)
Definition traffic_bar (usage_percent : Q) : list Cell :=
  let bars := 20%Z in
  let filled := py_int (inject_Z bars * usage_percent / 100)%Q in
  py_repeat Full filled ++ py_repeat Empty (bars - filled).

(** The server that a message, a reply or a log record is about. *)
Definition message_subject (m : Message) : string :=
  match m with
  | TrafficWarning server _ _ | TrafficExceeded server _ | ShutdownDone server => server
  end.

Definition record_subject (record : LogRecord) : option string :=
  match record with
  | TrafficProbeFailed server | CheckServerFailed server
  | ThresholdReached server _ | LimitExceeded server | ServerDeleted server
  | ServerNotDeleted server | DeleteServerFailed server
  | RebuildServerFailed server => Some server
  | _ => None
  end.

(** The server that a call is about, if any. *)
Definition subject (ev : Event) : option string :=
  match ev with
  | GetByName server | Delete server => Some server
  | Create spec => Some (sc_name spec)
  | SendMessage m => Some (message_subject m)
  | ReplyTo (StopDeleted server) | ReplyTo (StopFailed server) => Some server
  | Log _ record => record_subject record
  | _ => None
  end.

(** The events that [handle_traffic_exceeded] can produce for the server
    called [n]. *)
Definition destroy_event (n : string) (ev : Event) : Prop :=
  match ev with
  | SendMessage (TrafficExceeded server _) => server = n
  | Log ERROR TelegramFailed => True
  | Log WARNING (LimitExceeded server) => server = n
  | GetByName server | Delete server => server = n
  | Log ERROR (DeleteServerFailed server) => server = n
  | Log INFO (ServerDeleted server) => server = n
  | Log ERROR (ServerNotDeleted server) => server = n
  | _ => False
  end.

(** The server that the provider holds after a rebuild of [server]: what
    was requested, with the attributes the provider chose after [history]. *)
Definition rebuilt (fresh : list Event → Server) (server : Server)
    (history : list Event) : Server :=
  mkServer (name server) (status (fresh history)) (server_type server)
           (image server) (location server) (ssh_keys server)
           (primary_disk_size (fresh history)) (ipv4 (fresh history)).

(** The record that [update_cloudflare_dns] logs for the address [ip]. *)
Definition dns_record (config : Config) (ip : string) : Event :=
  Log INFO (DnsUpdated
              (String.append (cloudflare_subdomain config)
                 (String.append "." (cloudflare_domain config))) ip).

(** Whether the sample that the pass takes of [server] is at or over the
    limit: none is taken for a disk of size 0, and a failed probe is sampled
    at the default. *)
Definition over_limit (config : Config) (server : Server) : bool :=
  match primary_disk_size server with
  | Some size =>
      negb (size * 1000 =? 0)%Z
      && Qle_bool (traffic_limit_percent config) (sampled_usage size)
  | None => Qle_bool (traffic_limit_percent config) default_usage
  end.

(** A provider that answers every listing, lookup and delete. *)
Definition answers (fails : list Event → Event → bool) : Prop :=
  ∀ history,
    fails history GetAll = false ∧
    ∀ n, fails history (GetByName n) = false ∧ fails history (Delete n) = false.

(** ** Concrete worlds used in the examples *)

(** A world in which no call raises. *)
Definition never_fails : list Event → Event → bool := fun _ _ => false.

(** What the provider chooses for a new server. *)
Definition fresh_server : list Event → Server :=
  fun _ => mkServer "" "initializing" "" "" "" [] (Some 20%Z) "203.0.113.7".

Definition example_config (thresholds : list Q) (limit : Q) : Config :=
  mkConfig thresholds limit false "" "example.org".

Definition web1 : Server :=
  mkServer "web1" "running" "cx21" "ubuntu-22.04" "fsn1" ["ops"] (Some 40%Z) "198.51.100.4".

Definition empty_world : World := mkWorld ∅ [] [].

(** A provider whose deletes all raise. *)
Definition delete_fails : list Event → Event → bool :=
  fun _ call => match call with Delete _ => true | _ => false end.

(** Thresholds 10 to 90 with the limit at 90. *)
Definition staged_config : Config :=
  example_config [10; 20; 30; 40; 50; 60; 70; 80; 90]%Q 90%Q.

(** A running server with the given name. *)
Definition server_named (n : string) : Server :=
  mkServer n "running" "cx21" "ubuntu-22.04" "fsn1" [] (Some 40%Z) "198.51.100.4".

(** A provider on which deleting server "B", and nothing else, fails. *)
Definition delete_of_B_fails : list Event → Event → bool :=
  fun _ call => match call with Delete n => String.eqb n "B" | _ => false end.

Definition three_servers : World :=
  mkWorld ∅ [server_named "A"; server_named "B"; server_named "C"] [].

(** A provider whose listing raises. *)
Definition listing_fails : list Event → Event → bool :=
  fun _ call => match call with GetAll => true | _ => false end.

(** A provider whose creates all raise. *)
Definition create_fails : list Event → Event → bool :=
  fun _ call => match call with Create _ => true | _ => false end.

(** A Telegram bot whose sends all raise. *)
Definition telegram_fails : list Event → Event → bool :=
  fun _ call => match call with SendMessage _ | ReplyTo _ => true | _ => false end.

(** A configuration with the DNS update enabled. *)
Definition dns_config : Config :=
  mkConfig [10; 20; 30; 50]%Q 90%Q true "vpn" "example.org".

(** A server whose disk size reads 0. *)
Definition diskless : Server :=
  mkServer "web0" "running" "cx11" "debian-12" "nbg1" [] (Some 0%Z) "198.51.100.8".

(** A world that remembers a threshold for a server that is gone. *)
Definition stale_world : World := mkWorld {["gone" := 50%Q]} [web1] [].

(** A running server with a 1 GB disk, sampled at 50 percent. *)
Definition one_gb_server (n : string) : Server :=
  mkServer n "running" "cx11" "debian-12" "nbg1" [] (Some 1%Z) "198.51.100.9".

(** ** Basic facts *)

(** [ev] is none of the events of an explicit list. *)
Ltac not_among :=
  let H := fresh "Hin" in
  intros H;
  repeat (apply elem_of_cons in H as [H|H]; [discriminate H|]);
  by apply elem_of_nil in H.

(** [ev] occurs in a list built with [::] and [++]. *)
Ltac among :=
  first [ apply list_elem_of_here
        | apply list_elem_of_further; among
        | apply elem_of_app; left; among
        | apply elem_of_app; right; among ].

(** Unfolds the monad operations of a run. *)
Ltac run_monad :=
  unfold try_except, bind, external, gets, log, time_sleep, modify, ret, raise;
  unfold emit, with_cloud, with_notified;
  simpl.

Lemma Qlt_bool_iff (x y : Q) : Qlt_bool x y = true ↔ (x < y)%Q.
Proof.
  unfold Qlt_bool. rewrite negb_true_iff. split.
  - intros Hb. apply Qnot_le_lt. intros Hle.
    apply Qle_bool_iff in Hle. congruence.
  - intros Hlt. destruct (Qle_bool y x) eqn:Hb; [|done].
    apply Qle_bool_iff in Hb. exfalso. eapply Qlt_not_le; eauto.
Qed.

Lemma newly_crossed_iff (usage_percent last threshold : Q) :
  Qle_bool threshold usage_percent && Qlt_bool last threshold = true
  ↔ newly_crossed usage_percent last threshold.
Proof.
  unfold newly_crossed.
  rewrite andb_true_iff, Qle_bool_iff, Qlt_bool_iff. done.
Qed.

Lemma new_events_app (w w' : World) (events : list Event) :
  trace w' = trace w ++ events → new_events w w' = events.
Proof. unfold new_events. intros ->. by rewrite drop_app_length. Qed.

Lemma thresholds_reached_app (key : string) (l1 l2 : list Event) :
  thresholds_reached key (l1 ++ l2)
  = thresholds_reached key l1 ++ thresholds_reached key l2.
Proof.
  induction l1 as [|ev l1 IH]; [done|].
  destruct ev as [| | | | | | |level record]; simpl; try done.
  destruct level; try done.
  destruct record; try done.
  destruct (String.eqb _ _); simpl; by rewrite IH.
Qed.

Section Facts.

Variable config : Config.
Variable fails : list Event → Event → bool.

Lemma send_telegram_message_run (message : Message) (w : World) :
  send_telegram_message fails message w
  = (Ok PyNone,
     mkWorld (notified_thresholds w) (cloud w)
       (trace w ++ [SendMessage message] ++ telegram_errors fails (trace w) message)).
Proof.
  unfold send_telegram_message, try_except, bind, external, telegram_errors.
  destruct (fails (trace w) (SendMessage message)); simpl.
  - unfold log, modify, emit. simpl. by rewrite <- app_assoc.
  - done.
Qed.

Lemma thresholds_reached_warning (history : list Event) (server : Server)
    (usage_percent threshold : Q) :
  thresholds_reached (name server)
    (warning_events fails history server usage_percent threshold) = [threshold].
Proof.
  unfold warning_events, telegram_errors. simpl.
  destruct (fails _ _); simpl; by rewrite String.eqb_refl.
Qed.

(** The scan fires on the first newly crossed threshold of the list. *)
Lemma scan_thresholds_fires (server : Server) (usage_percent last : Q)
    (pre post : list Q) (threshold : Q) (w : World) :
  Forall (fun x => ¬ newly_crossed usage_percent last x) pre →
  newly_crossed usage_percent last threshold →
  scan_thresholds fails server usage_percent last (pre ++ threshold :: post) w
  = (Ok PyNone,
     mkWorld (<[name server := threshold]> (notified_thresholds w)) (cloud w)
       (trace w ++ warning_events fails (trace w) server usage_percent threshold)).
Proof.
  intros Hpre Hthr. induction Hpre as [|x pre Hx _ IH]; simpl.
  - apply newly_crossed_iff in Hthr. rewrite Hthr.
    unfold bind at 1. rewrite send_telegram_message_run.
    unfold bind, modify, log, ret, with_notified, emit, warning_events. simpl.
    by rewrite <- !app_assoc.
  - destruct (Qle_bool x usage_percent && Qlt_bool last x) eqn:Hb; [|exact IH].
    apply newly_crossed_iff in Hb. contradiction.
Qed.

(** Without a newly crossed threshold the scan does nothing. *)
Lemma scan_thresholds_silent (server : Server) (usage_percent last : Q)
    (thresholds : list Q) (w : World) :
  Forall (fun x => ¬ newly_crossed usage_percent last x) thresholds →
  scan_thresholds fails server usage_percent last thresholds w = (Ok PyNone, w).
Proof.
  induction 1 as [|x rest Hx _ IH]; simpl; [done|].
  destruct (Qle_bool x usage_percent && Qlt_bool last x) eqn:Hb; [|exact IH].
  apply newly_crossed_iff in Hb. contradiction.
Qed.

(** Every list either has a first newly crossed threshold or none. *)
Lemma first_newly_crossed (usage_percent last : Q) (thresholds : list Q) :
  (∃ pre threshold post,
      thresholds = pre ++ threshold :: post ∧
      Forall (fun x => ¬ newly_crossed usage_percent last x) pre ∧
      newly_crossed usage_percent last threshold)
  ∨ Forall (fun x => ¬ newly_crossed usage_percent last x) thresholds.
Proof.
  induction thresholds as [|x rest IH]; [by right|].
  destruct (Qle_bool x usage_percent && Qlt_bool last x) eqn:Hb.
  - left. exists [], x, rest. apply newly_crossed_iff in Hb. by split_and!.
  - assert (Hx : ¬ newly_crossed usage_percent last x).
    { intros Hc. apply newly_crossed_iff in Hc. congruence. }
    destruct IH as [(pre & t & post & -> & Hpre & Ht)|Hall].
    + left. exists (x :: pre), t, post. split_and!; try done.
      by constructor.
    + right. by constructor.
Qed.

(** In an ascending list the first newly crossed threshold is the least. *)
Lemma first_newly_crossed_least (usage_percent last : Q) (pre post : list Q)
    (threshold x : Q) :
  StronglySorted Qle (pre ++ threshold :: post) →
  Forall (fun y => ¬ newly_crossed usage_percent last y) pre →
  x ∈ pre ++ threshold :: post →
  newly_crossed usage_percent last x →
  (threshold <= x)%Q.
Proof.
  intros Hsorted Hpre Hin Hx.
  apply elem_of_app in Hin as [Hin|Hin].
  - rewrite Forall_forall in Hpre. exfalso. eapply Hpre; eauto.
  - apply StronglySorted_app_1_r in Hsorted.
    apply StronglySorted_cons in Hsorted as [Hle _].
    apply elem_of_cons in Hin as [->|Hin]; [apply Qle_refl|].
    rewrite Forall_forall in Hle. by apply Hle.
Qed.

(** The complete behaviour of one [check_notification_thresholds] call. *)
Lemma check_notification_thresholds_run (server : Server) (usage_percent : Q)
    (w : World) :
  let last := last_notified w (name server) in
  let run := check_notification_thresholds config fails server usage_percent w in
  (∃ pre threshold post,
      notification_thresholds config = pre ++ threshold :: post ∧
      Forall (fun x => ¬ newly_crossed usage_percent last x) pre ∧
      newly_crossed usage_percent last threshold ∧
      run = (Ok PyNone,
             mkWorld (<[name server := threshold]> (notified_thresholds w)) (cloud w)
               (trace w ++ warning_events fails (trace w) server usage_percent threshold)))
  ∨ (Forall (fun x => ¬ newly_crossed usage_percent last x)
            (notification_thresholds config) ∧
     run = (Ok PyNone, w)).
Proof.
  intros last run. subst run.
  unfold check_notification_thresholds, bind, gets. fold (last_notified w (name server)).
  fold last.
  destruct (first_newly_crossed usage_percent last (notification_thresholds config))
    as [(pre & t & post & Heq & Hpre & Ht)|Hall].
  - left. exists pre, t, post. split_and!; try done.
    rewrite Heq. by apply scan_thresholds_fires.
  - right. split; [done|]. by apply scan_thresholds_silent.
Qed.

(** A call fires on the first newly crossed threshold of the configured
    list. *)
Lemma check_notification_thresholds_fires (server : Server) (usage_percent : Q)
    (w : World) (pre : list Q) (threshold : Q) (post : list Q) :
  notification_thresholds config = pre ++ threshold :: post →
  Forall (fun x => ¬ newly_crossed usage_percent (last_notified w (name server)) x) pre →
  newly_crossed usage_percent (last_notified w (name server)) threshold →
  check_notification_thresholds config fails server usage_percent w
  = (Ok PyNone,
     mkWorld (<[name server := threshold]> (notified_thresholds w)) (cloud w)
       (trace w ++ warning_events fails (trace w) server usage_percent threshold)).
Proof.
  intros Heq Hpre Ht.
  unfold check_notification_thresholds, bind, gets.
  fold (last_notified w (name server)). rewrite Heq.
  by apply scan_thresholds_fires.
Qed.

(** A call without a newly crossed threshold changes nothing. *)
Lemma check_notification_thresholds_silent (server : Server) (usage_percent : Q)
    (w : World) :
  Forall (fun x => ¬ newly_crossed usage_percent (last_notified w (name server)) x)
         (notification_thresholds config) →
  check_notification_thresholds config fails server usage_percent w = (Ok PyNone, w).
Proof.
  intros Hall.
  unfold check_notification_thresholds, bind, gets.
  fold (last_notified w (name server)).
  by apply scan_thresholds_silent.
Qed.

End Facts.

(** ** Threshold staging: one call *)

Ltac q_facts :=
  repeat match goal with
         | |- ¬ _ => intros [? ?]
         | |- newly_crossed _ _ _ => split
         | |- Forall _ _ => constructor
         | |- StronglySorted _ _ => constructor
         | |- _ => lra
         end.

(** C1 (amended): for a server without an entry in [notified_thresholds]
    (read as last notified [0]) and an ascending threshold list, one call
    of [check_notification_thresholds] fires on the first threshold of the
    scan that is at most the usage and greater than [0]; that threshold is
    the smallest such one, it is recorded as the last notified and it is the
    only one logged as reached.  When there is no such threshold the call
    changes nothing.  With thresholds 10, 20, 30, 50 and usage 55 the first
    call fires on 10 and a second call with the same usage on 20. *)
Theorem check_notification_thresholds_first_match
    (config : Config) (fails : list Event → Event → bool)
    (server : Server) (usage_percent : Q) (w : World) :
  notified_thresholds w !! name server = None →
  StronglySorted Qle (notification_thresholds config) →
  let run := check_notification_thresholds config fails server usage_percent w in
  ((∃ pre threshold post,
       notification_thresholds config = pre ++ threshold :: post ∧
       Forall (fun x => ¬ ((x <= usage_percent)%Q ∧ (0 < x)%Q)) pre ∧
       (threshold <= usage_percent)%Q ∧ (0 < threshold)%Q ∧
       (∀ x, x ∈ notification_thresholds config →
             (x <= usage_percent)%Q → (0 < x)%Q → (threshold <= x)%Q) ∧
       result run = Ok PyNone ∧
       notified_thresholds (after run)
         = <[name server := threshold]> (notified_thresholds w) ∧
       cloud (after run) = cloud w ∧
       new_events w (after run)
         = warning_events fails (trace w) server usage_percent threshold ∧
       thresholds_reached (name server) (new_events w (after run)) = [threshold])
   ∨ ((∀ x, x ∈ notification_thresholds config →
            ¬ ((x <= usage_percent)%Q ∧ (0 < x)%Q)) ∧
      run = (Ok PyNone, w)))
  ∧ (notification_thresholds config = [10; 20; 30; 50]%Q →
     usage_percent = 55%Q →
     let again :=
       check_notification_thresholds config fails server usage_percent (after run) in
     thresholds_reached (name server) (new_events w (after run)) = [10%Q] ∧
     notified_thresholds (after run) !! name server = Some 10%Q ∧
     thresholds_reached (name server) (new_events (after run) (after again)) = [20%Q] ∧
     notified_thresholds (after again) !! name server = Some 20%Q).
Proof.
  intros Hnone Hsorted run.
  assert (Hlast : last_notified w (name server) = 0%Q).
  { unfold last_notified. by rewrite Hnone. }
  split.
  - pose proof (check_notification_thresholds_run config fails server usage_percent w)
      as Hrun.
    simpl in Hrun. rewrite Hlast in Hrun. fold run in Hrun.
    destruct Hrun as [(pre & t & post & Heq & Hpre & [Hle Hlt] & Hrun)|[Hall Hrun]].
    + left. exists pre, t, post. rewrite Hrun. simpl.
      split_and!; try done.
      * intros x Hin Hxle Hxlt. rewrite Heq in Hsorted, Hin.
        by apply (first_newly_crossed_least usage_percent 0 pre post t x).
      * by apply new_events_app.
      * erewrite new_events_app; [|done].
        apply thresholds_reached_warning.
    + right. split; [|done].
      intros x Hin. rewrite Forall_forall in Hall. by apply Hall.
  - intros Hcfg -> again.
    assert (Hfirst : run = (Ok PyNone,
              mkWorld (<[name server := 10%Q]> (notified_thresholds w)) (cloud w)
                (trace w ++ warning_events fails (trace w) server 55 10))).
    { apply (check_notification_thresholds_fires config fails server 55 w
               [] 10 [20; 30; 50]%Q); rewrite ?Hlast; [done|q_facts..]. }
    subst again. rewrite Hfirst. unfold after. cbn [snd].
    match goal with
    | |- context [check_notification_thresholds _ _ _ _ ?w1] => set (w' := w1)
    end.
    assert (Hlast' : last_notified w' (name server) = 10%Q).
    { unfold last_notified, w'. simpl. by rewrite lookup_insert_eq. }
    rewrite (check_notification_thresholds_fires config fails server 55 w'
               [10%Q] 20 [30; 50]%Q); rewrite ?Hlast'; [|done|q_facts..].
    cbn [snd notified_thresholds].
    split_and!.
    + erewrite new_events_app; [|done]. apply thresholds_reached_warning.
    + apply lookup_insert_eq.
    + erewrite new_events_app; [|done]. apply thresholds_reached_warning.
    + apply lookup_insert_eq.
Qed.

Lemma check_notification_thresholds_first_match_example :
  let config := example_config [10; 20; 30; 50]%Q 90%Q in
  let first := check_notification_thresholds config never_fails web1 55%Q empty_world in
  let second := check_notification_thresholds config never_fails web1 55%Q (after first) in
  thresholds_reached "web1" (new_events empty_world (after first)) = [10%Q] ∧
  notified_thresholds (after first) !! "web1" = Some 10%Q ∧
  thresholds_reached "web1" (new_events (after first) (after second)) = [20%Q] ∧
  notified_thresholds (after second) !! "web1" = Some 20%Q.
Proof.
  intros config first second.
  refine (proj2 (check_notification_thresholds_first_match
                   config never_fails web1 55%Q empty_world _ _) _ _);
    [reflexivity | simpl; q_facts | reflexivity | reflexivity].
Defined.

(** C1 as stated fails on a threshold that is not above the default [0]:
    with thresholds 0, 10 (ascending), nothing notified before and usage 5,
    the first threshold that the usage reaches is 0, yet the call fires on
    nothing and records nothing. *)
Lemma check_notification_thresholds_zero_threshold :
  let config := example_config [0; 10]%Q 90%Q in
  let run := check_notification_thresholds config never_fails web1 5%Q empty_world in
  notified_thresholds empty_world !! name web1 = None ∧
  StronglySorted Qle (notification_thresholds config) ∧
  (0%Q ∈ notification_thresholds config ∧ (0 <= 5)%Q) ∧
  run = (Ok PyNone, empty_world).
Proof.
  simpl. split_and!.
  - reflexivity.
  - q_facts.
  - apply elem_of_cons. by left.
  - lra.
  - reflexivity.
Qed.

(** ** Threshold staging: sequences of calls *)

Section Staging.

Variable config : Config.
Variable fails : list Event → Event → bool.
Variable key : string.

Lemma thresholds_reached_warning_other (history : list Event) (server : Server)
    (usage_percent threshold : Q) :
  name server ≠ key →
  thresholds_reached key
    (warning_events fails history server usage_percent threshold) = [].
Proof.
  intros Hne. unfold warning_events, telegram_errors. simpl.
  assert (String.eqb (name server) key = false) as Hb by by apply String.eqb_neq.
  destruct (fails _ _); simpl; by rewrite Hb.
Qed.

(** One call either leaves the entry of [key] alone and logs nothing for it,
    or fires for it on a threshold above the last notified one. *)
Lemma check_notification_thresholds_step (server : Server) (usage_percent : Q)
    (w : World) :
  let w' := after (check_notification_thresholds config fails server usage_percent w) in
  ∃ events,
    trace w' = trace w ++ events ∧
    ((thresholds_reached key events = [] ∧
      last_notified w' key = last_notified w key)
     ∨ (∃ threshold,
          thresholds_reached key events = [threshold] ∧
          last_notified w' key = threshold ∧
          (last_notified w key < threshold)%Q)).
Proof.
  intros w'. subst w'.
  destruct (check_notification_thresholds_run config fails server usage_percent w)
    as [(pre & t & post & _ & _ & [_ Hlt] & ->)|[_ ->]]; unfold after; simpl.
  - eexists. split; [done|].
    destruct (decide (name server = key)) as [<-|Hne].
    + right. exists t. split_and!; [apply thresholds_reached_warning| |done].
      unfold last_notified. simpl. by rewrite lookup_insert_eq.
    + left. split; [by apply thresholds_reached_warning_other|].
      unfold last_notified. simpl. by rewrite lookup_insert_ne.
  - exists []. split; [by rewrite app_nil_r|]. by left.
Qed.

(** Staging holds for every sequence of calls, whatever the usages. *)
Lemma run_checks_staging (calls : list (Server * Q)) (w : World) :
  ∃ events,
    trace (checks_end config fails calls w) = trace w ++ events ∧
    Forall (fun t => (last_notified w key < t)%Q) (thresholds_reached key events) ∧
    StronglySorted Qlt (thresholds_reached key events) ∧
    (last_notified w key <= last_notified (checks_end config fails calls w) key)%Q ∧
    StronglySorted Qle
      (map (fun w' => last_notified w' key) (w :: run_checks config fails calls w)).
Proof.
  revert w. induction calls as [|[server usage_percent] rest IH]; intros w.
  - exists []. simpl. rewrite app_nil_r.
    split_and!; try done; try constructor; try apply Qle_refl; constructor.
  - simpl.
    destruct (check_notification_thresholds_step server usage_percent w)
      as (ev1 & Htr1 & Hstep).
    set (w1 := after (check_notification_thresholds config fails server usage_percent w))
      in *.
    destruct (IH w1) as (ev2 & Htr2 & Habove & Hsorted & Hle & Hworlds).
    exists (ev1 ++ ev2). rewrite thresholds_reached_app.
    assert (Hmono : (last_notified w key <= last_notified w1 key)%Q).
    { destruct Hstep as [[_ ->]|(t & _ & -> & Hlt)];
        [apply Qle_refl | by apply Qlt_le_weak]. }
    split_and!.
    + by rewrite Htr2, Htr1, app_assoc.
    + apply Forall_app. split.
      * destruct Hstep as [[-> _]|(t & -> & _ & Hlt)]; repeat constructor; done.
      * eapply Forall_impl; [exact Habove|]. intros t Ht. simpl in Ht.
        eapply Qle_lt_trans; eauto.
    + destruct Hstep as [[-> _]|(t & -> & Ht & Hlt)]; [done|].
      simpl. constructor; [done|]. by rewrite <- Ht.
    + eapply Qle_trans; eauto.
    + constructor; [exact Hworlds|].
      apply StronglySorted_cons in Hworlds as [Hall _].
      constructor; [done|].
      eapply Forall_impl; [exact Hall|]. intros q Hq. simpl in Hq.
      eapply Qle_trans; eauto.
Qed.

End Staging.

(** C5: over any sequence of [check_notification_thresholds] calls with
    nothing in between (so no reset), in which the usages sampled for a
    server are non-decreasing, the thresholds fired for that server are
    strictly increasing and its stored last notified threshold (read with the
    default [0]) never decreases from one call to the next. *)
Theorem monotonic_staging (config : Config) (fails : list Event → Event → bool)
    (key : string) (calls : list (Server * Q)) (w : World) :
  StronglySorted Qle (usages_of key calls) →
  StronglySorted Qlt
    (thresholds_reached key (new_events w (checks_end config fails calls w))) ∧
  StronglySorted Qle
    (map (fun w' => last_notified w' key) (w :: run_checks config fails calls w)).
Proof.
  intros _.
  destruct (run_checks_staging config fails key calls w)
    as (events & Htrace & _ & Hsorted & _ & Hworlds).
  split; [|exact Hworlds].
  by rewrite (new_events_app _ _ _ Htrace).
Qed.

Lemma monotonic_staging_example :
  let config := example_config [10; 20; 30; 50]%Q 90%Q in
  let calls := [(web1, 15%Q); (web1, 55%Q); (web1, 55%Q); (web1, 55%Q); (web1, 60%Q)] in
  let w' := checks_end config never_fails calls empty_world in
  thresholds_reached "web1" (new_events empty_world w') = [10; 20; 30; 50]%Q ∧
  StronglySorted Qlt (thresholds_reached "web1" (new_events empty_world w')) ∧
  StronglySorted Qle
    (map (fun w' => last_notified w' "web1")
         (empty_world :: run_checks config never_fails calls empty_world)).
Proof.
  intros config calls w'. split; [reflexivity|].
  apply (monotonic_staging config never_fails "web1" calls empty_world).
  change (usages_of "web1" calls) with [15; 55; 55; 55; 60]%Q. q_facts.
Defined.

(** ** Deleting a server *)

Lemma lookup_server_name (server_name : string) (w : World) (server : Server) :
  lookup_server server_name w = Some server → name server = server_name.
Proof.
  unfold lookup_server. intros Hfind.
  apply find_some in Hfind as [_ Heq]. by apply String.eqb_eq.
Qed.

Lemma lookup_server_absent (server_name : string) (w : World) :
  (∀ s, s ∈ cloud w → name s ≠ server_name) ↔ lookup_server server_name w = None.
Proof.
  unfold lookup_server. split.
  - intros Habsent.
    destruct (List.find _ _) as [s|] eqn:Hfind; [|done].
    apply find_some in Hfind as [Hin Heq].
    apply String.eqb_eq in Heq. apply list_elem_of_In in Hin.
    by destruct (Habsent s Hin).
  - intros Hnone s Hin Heq.
    apply list_elem_of_In in Hin.
    pose proof (find_none _ _ Hnone s Hin) as Hb. simpl in Hb.
    apply String.eqb_neq in Hb. done.
Qed.

Section Deleting.

Variable fails : list Event → Event → bool.

(** All the runs of [delete_server]. *)
Lemma delete_server_run (server_name : string) (w : World) :
  delete_server fails server_name w =
  if fails (trace w) (GetByName server_name) then
    (Ok (PyBool false),
     mkWorld (notified_thresholds w) (cloud w)
       (trace w ++ [GetByName server_name; Log ERROR (DeleteServerFailed server_name)]))
  else
    match lookup_server server_name w with
    | None =>
        (Ok (PyBool false),
         mkWorld (notified_thresholds w) (cloud w) (trace w ++ [GetByName server_name]))
    | Some server =>
        if fails (trace w ++ [GetByName server_name]) (Delete server_name) then
          (Ok (PyBool false),
           mkWorld (notified_thresholds w) (cloud w)
             (trace w ++ [GetByName server_name; Delete server_name;
                          Log ERROR (DeleteServerFailed server_name)]))
        else
          (Ok (PyBool true),
           mkWorld (notified_thresholds w) (without_server server_name (cloud w))
             (trace w ++ [GetByName server_name; Delete server_name]))
    end.
Proof.
  unfold delete_server, servers_get_by_name, server_delete. run_monad.
  destruct (fails (trace w) (GetByName server_name)) eqn:Hlookup; simpl.
  - by rewrite <- ?app_assoc.
  - fold (lookup_server server_name w).
    destruct (lookup_server server_name w) as [server|] eqn:Hfound; simpl; [|done].
    apply lookup_server_name in Hfound as <-.
    destruct (fails _ (Delete (name server))); simpl; by rewrite <- ?app_assoc.
Qed.

(** [delete_server] never touches [notified_thresholds], returns a boolean
    and only appends to the trace. *)
Lemma delete_server_frame (server_name : string) (w : World) :
  let run := delete_server fails server_name w in
  notified_thresholds (after run) = notified_thresholds w ∧
  (∃ b, result run = Ok (PyBool b)) ∧
  (∃ events, trace (after run) = trace w ++ events).
Proof.
  simpl. rewrite delete_server_run.
  repeat case_match; simpl; eauto.
Qed.

(** The first call of [delete_server] is the lookup; a run that returns
    [False] leaves the servers as they were, a run that returns [True] found
    the server and removed it. *)
Lemma delete_server_effect (server_name : string) (w : World) :
  let run := delete_server fails server_name w in
  (∃ events, trace (after run) = trace w ++ GetByName server_name :: events ∧
             ∀ m, SendMessage m ∉ events) ∧
  (result run = Ok (PyBool false) → cloud (after run) = cloud w) ∧
  (result run = Ok (PyBool true) →
     is_Some (lookup_server server_name w) ∧
     cloud (after run) = without_server server_name (cloud w)).
Proof.
  simpl. rewrite delete_server_run.
  repeat case_match; unfold result, after; simpl; split_and!;
    try done; try (eexists; split; [done|intros; not_among]);
    intros; simplify_eq; eauto.
Qed.

End Deleting.

(** C3 (amended): for a server name that no server of the provider has
    (the lookup by name finds nothing), [delete_server] returns [False], not
    success; it issues no delete, and neither the servers nor the notified
    thresholds change. *)
Theorem delete_server_absent (fails : list Event → Event → bool)
    (server_name : string) (w : World) :
  (∀ s, s ∈ cloud w → name s ≠ server_name) →
  let run := delete_server fails server_name w in
  result run = Ok (PyBool false) ∧
  cloud (after run) = cloud w ∧
  notified_thresholds (after run) = notified_thresholds w ∧
  (∀ n, Delete n ∉ new_events w (after run)).
Proof.
  intros Habsent run. subst run.
  apply lookup_server_absent in Habsent.
  rewrite delete_server_run, Habsent.
  destruct (fails (trace w) (GetByName server_name)); unfold after, result; simpl.
  - split_and!; try done. intros n.
    erewrite new_events_app; [|done]. not_among.
  - split_and!; try done. intros n.
    erewrite new_events_app; [|done]. not_among.
Qed.

Lemma delete_server_absent_example :
  let run := delete_server never_fails "web1" empty_world in
  result run = Ok (PyBool false) ∧
  cloud (after run) = [] ∧
  notified_thresholds (after run) = ∅ ∧
  (∀ n, Delete n ∉ new_events empty_world (after run)).
Proof.
  apply (delete_server_absent never_fails "web1" empty_world).
  intros s Hin. simpl in Hin. by apply elem_of_nil in Hin.
Defined.

(** C3 as stated fails: deleting a name that the provider does not know
    reports failure, where no call raised. *)
Lemma absent_server_delete_reports_failure :
  let run := delete_server never_fails "web1" empty_world in
  lookup_server "web1" empty_world = None ∧
  result run = Ok (PyBool false) ∧
  (∀ v, result run = Ok v → truthy v = false).
Proof.
  simpl. split_and!; try reflexivity.
  intros v Hv. by inversion Hv.
Qed.

(** ** Traffic over the limit *)

Section Exceeded.

Variable fails : list Event → Event → bool.

(** All the runs of [handle_traffic_exceeded], by the outcome of its
    [delete_server] call. *)
Lemma handle_traffic_exceeded_run (server : Server) (usage_percent : Q) (w : World) :
  let deletion := delete_server fails (name server) (alerted fails server usage_percent w) in
  handle_traffic_exceeded fails server usage_percent w =
  match result deletion with
  | Ok (PyBool true) =>
      (Ok PyNone,
       mkWorld (delete (name server) (notified_thresholds w)) (cloud (after deletion))
         (trace (after deletion) ++ [Log INFO (ServerDeleted (name server))]))
  | _ =>
      (Ok PyNone,
       mkWorld (notified_thresholds w) (cloud (after deletion))
         (trace (after deletion) ++ [Log ERROR (ServerNotDeleted (name server))]))
  end.
Proof.
  intros deletion.
  unfold handle_traffic_exceeded. unfold bind at 1.
  rewrite send_telegram_message_run.
  unfold bind at 1. unfold log at 1, modify at 1, emit at 1. cbn [trace notified_thresholds cloud].
  unfold bind at 1.
  replace (mkWorld _ _ _) with (alerted fails server usage_percent w)
    by (unfold alerted; simpl; by rewrite <- !app_assoc).
  fold deletion.
  destruct (delete_server_frame fails (name server) (alerted fails server usage_percent w))
    as (Hnotified & [b Hb] & _).
  fold deletion in Hnotified, Hb. simpl in Hnotified.
  destruct deletion as [outcome w1] eqn:Hdel.
  unfold result, after in *. simpl in *. subst outcome.
  destruct b; run_monad; by rewrite Hnotified.
Qed.

End Exceeded.

(** C8: when the provider raises during a delete (in the lookup or in the
    delete itself), [delete_server] returns [False] and leaves
    [notified_thresholds] and the servers as they were; and
    [handle_traffic_exceeded], whose delete fails that way, leaves
    [notified_thresholds] unchanged as well: no entry is added, removed or
    modified on the error path. *)
Theorem failed_delete_keeps_thresholds (fails : list Event → Event → bool)
    (server : Server) (usage_percent : Q) (w : World) :
  (provider_error fails (name server) w →
   let run := delete_server fails (name server) w in
   result run = Ok (PyBool false) ∧
   notified_thresholds (after run) = notified_thresholds w ∧
   cloud (after run) = cloud w)
  ∧ (provider_error fails (name server) (alerted fails server usage_percent w) →
     let run := handle_traffic_exceeded fails server usage_percent w in
     result run = Ok PyNone ∧
     notified_thresholds (after run) = notified_thresholds w ∧
     cloud (after run) = cloud w ∧
     Log ERROR (ServerNotDeleted (name server)) ∈ new_events w (after run)).
Proof.
  assert (Hfalse : ∀ w0, provider_error fails (name server) w0 →
            result (delete_server fails (name server) w0) = Ok (PyBool false)).
  { intros w0 Herr. rewrite delete_server_run.
    destruct Herr as [Hlookup|(s & Hfound & Hdelete)].
    - by rewrite Hlookup.
    - rewrite Hfound. rewrite (lookup_server_name _ _ _ Hfound) in Hdelete.
      rewrite Hdelete. by destruct (fails (trace w0) _). }
  split.
  - intros Herr run. subst run. split_and!.
    + by apply Hfalse.
    + apply delete_server_frame.
    + apply delete_server_effect. by apply Hfalse.
  - intros Herr run. subst run.
    rewrite handle_traffic_exceeded_run.
    pose proof (Hfalse _ Herr) as Hres. rewrite Hres.
    destruct (delete_server_effect fails (name server)
                (alerted fails server usage_percent w))
      as ((events & Htrace & _) & Hcloud & _).
    unfold result, after in *. simpl in *.
    split_and!; try done.
    + by apply Hcloud.
    + erewrite new_events_app.
      2:{ simpl. rewrite Htrace. rewrite <- !app_assoc. reflexivity. }
      among.
Qed.

Lemma failed_delete_keeps_thresholds_example :
  let w := mkWorld {["web1" := 50%Q]} [web1] [] in
  let deletion := delete_server delete_fails "web1" w in
  let handled := handle_traffic_exceeded delete_fails web1 95%Q w in
  (result deletion = Ok (PyBool false) ∧
   notified_thresholds (after deletion) = {["web1" := 50%Q]} ∧
   cloud (after deletion) = [web1])
  ∧ (result handled = Ok PyNone ∧
     notified_thresholds (after handled) = {["web1" := 50%Q]} ∧
     cloud (after handled) = [web1] ∧
     Log ERROR (ServerNotDeleted "web1") ∈ new_events w (after handled)).
Proof.
  intros w deletion handled.
  destruct (failed_delete_keeps_thresholds delete_fails web1 95%Q w) as [Hdelete Hhandle].
  split.
  - apply Hdelete. right. exists web1. by split.
  - apply Hhandle. right. exists web1. by split.
Defined.

(** ** One sample of the traffic check *)

Section Sample.

Variable config : Config.
Variable fails : list Event → Event → bool.

(** The threshold check of a sample, whatever it does, makes no call to the
    provider, keeps the servers and returns normally. *)
Lemma check_notification_thresholds_quiet (server : Server) (usage_percent : Q)
    (w : World) :
  let run := check_notification_thresholds config fails server usage_percent w in
  result run = Ok PyNone ∧
  cloud (after run) = cloud w ∧
  ∃ events,
    trace (after run) = trace w ++ events ∧
    (∀ n, GetByName n ∉ events) ∧ (∀ n, Delete n ∉ events) ∧
    (∀ n q, SendMessage (TrafficExceeded n q) ∉ events).
Proof.
  simpl.
  destruct (check_notification_thresholds_run config fails server usage_percent w)
    as [(pre & t & post & _ & _ & _ & ->)|[_ ->]]; unfold result, after; simpl.
  - split_and!; try done. eexists. split; [done|].
    unfold warning_events, telegram_errors.
    destruct (fails _ _); simpl; split_and!; intros; not_among.
  - split_and!; try done. exists []. rewrite app_nil_r.
    split_and!; try done; intros; not_among.
Qed.

(** Over the limit, a sample is the threshold check followed by
    [handle_traffic_exceeded]. *)
Lemma process_sample_over_limit (server : Server) (usage_percent : Q) (w : World) :
  (traffic_limit_percent config <= usage_percent)%Q →
  process_sample config fails server usage_percent w
  = handle_traffic_exceeded fails server usage_percent
      (after (check_notification_thresholds config fails server usage_percent w)).
Proof.
  intros Hlimit. apply Qle_bool_iff in Hlimit.
  unfold process_sample. rewrite Hlimit. unfold bind.
  destruct (check_notification_thresholds_quiet server usage_percent w) as [Hres _].
  destruct (check_notification_thresholds _ _ _ _ _) as [o w1].
  unfold result, after in *. simpl in *. by subst o.
Qed.

(** The events of [handle_traffic_exceeded]: the alert, the log record,
    the lookup of the server, and what follows, in which no message is
    sent. *)
Lemma handle_traffic_exceeded_events (server : Server) (usage_percent : Q)
    (w : World) :
  let run := handle_traffic_exceeded fails server usage_percent w in
  let deletion := delete_server fails (name server) (alerted fails server usage_percent w) in
  result run = Ok PyNone ∧
  (∃ events,
     trace (after run)
     = trace w ++ [SendMessage (TrafficExceeded (name server) usage_percent)]
         ++ telegram_errors fails (trace w) (TrafficExceeded (name server) usage_percent)
         ++ [Log WARNING (LimitExceeded (name server)); GetByName (name server)]
         ++ events ∧
     (∀ m, SendMessage m ∉ events) ∧
     (result deletion = Ok (PyBool false) →
        Log ERROR (ServerNotDeleted (name server)) ∈ events)) ∧
  cloud (after run) = cloud (after deletion).
Proof.
  intros run deletion. subst run.
  rewrite handle_traffic_exceeded_run. fold deletion.
  destruct (delete_server_effect fails (name server)
              (alerted fails server usage_percent w))
    as ((events & Htrace & Hquiet) & _ & _).
  fold deletion in Htrace.
  destruct deletion as [o w1]. unfold result, after in *. simpl in *.
  destruct o as [[| [|] |]|]; simpl; rewrite Htrace; (split_and!; [done| |done]).
  all: eexists; split;
    [rewrite <- !app_assoc; simpl; rewrite <- ?app_assoc; simpl; reflexivity|].
  all: split; [|intros; try discriminate; try among].
  all: intros m Hin; apply elem_of_app in Hin as [Hin|Hin];
    [by apply (Hquiet m)|revert Hin; not_among].
Qed.

(** The events of a sample at or over the limit: those of the threshold
    check, then those of [handle_traffic_exceeded]. *)
Lemma process_sample_events (server : Server) (usage_percent : Q) (w : World) :
  (traffic_limit_percent config <= usage_percent)%Q →
  let checked := after (check_notification_thresholds config fails server usage_percent w) in
  let run := process_sample config fails server usage_percent w in
  let alert := TrafficExceeded (name server) usage_percent in
  result run = Ok PyNone ∧
  ∃ events,
    new_events w (after run)
    = new_events w checked ++ [SendMessage alert]
        ++ telegram_errors fails (trace checked) alert
        ++ [Log WARNING (LimitExceeded (name server)); GetByName (name server)]
        ++ events ∧
    (∀ m, SendMessage m ∉ events).
Proof.
  intros Hlimit checked run alert. subst run.
  rewrite process_sample_over_limit by done. fold checked.
  destruct (check_notification_thresholds_quiet server usage_percent w)
    as (_ & _ & before & Hbefore & _).
  fold checked in Hbefore.
  destruct (handle_traffic_exceeded_events server usage_percent checked)
    as (Hres & (events & Htrace & Hquiet & _) & _).
  split; [done|]. exists events. split; [|done].
  rewrite (new_events_app _ _ _ Hbefore).
  apply new_events_app. rewrite Htrace, Hbefore. by rewrite <- !app_assoc.
Qed.

End Sample.

(** C10: for every sample at or over the limit, the "traffic exceeded,
    deleting server" message is handed to the messenger before any call that
    looks up or deletes the server; the lookup of [delete_server] follows it.
    So the message is in the trace also when that delete returns [False], in
    which case the servers of the provider are unchanged. *)
Theorem exceeded_alert_precedes_delete (config : Config)
    (fails : list Event → Event → bool) (server : Server) (usage_percent : Q)
    (w : World) :
  (traffic_limit_percent config <= usage_percent)%Q →
  let checked := after (check_notification_thresholds config fails server usage_percent w) in
  let deletion :=
    delete_server fails (name server) (alerted fails server usage_percent checked) in
  let run := process_sample config fails server usage_percent w in
  ∃ before rest,
    new_events w (after run)
    = before ++ SendMessage (TrafficExceeded (name server) usage_percent) :: rest ∧
    (∀ n, GetByName n ∉ before) ∧ (∀ n, Delete n ∉ before) ∧
    GetByName (name server) ∈ rest ∧
    (result deletion = Ok (PyBool false) →
       cloud (after run) = cloud w ∧
       Log ERROR (ServerNotDeleted (name server)) ∈ rest).
Proof.
  intros Hlimit checked deletion run. subst run.
  rewrite process_sample_over_limit by done. fold checked.
  destruct (check_notification_thresholds_quiet config fails server usage_percent w)
    as (_ & Hcloud & before & Hbefore & Hlookup & Hdelete & _).
  fold checked in Hcloud, Hbefore.
  destruct (handle_traffic_exceeded_events fails server usage_percent checked)
    as (_ & (events & Htrace & _ & Hfailed) & Hcloud').
  fold deletion in Hfailed, Hcloud'.
  eexists before, _. split_and!; try done.
  - apply new_events_app. rewrite Htrace, Hbefore.
    rewrite <- !app_assoc. simpl. reflexivity.
  - among.
  - intros Hres. split.
    + rewrite Hcloud'. rewrite <- Hcloud.
      by apply (delete_server_effect fails (name server)
                  (alerted fails server usage_percent checked)).
    + specialize (Hfailed Hres). apply elem_of_app. right.
      do 2 apply list_elem_of_further. done.
Qed.

Lemma exceeded_alert_precedes_delete_example :
  let config := example_config [10; 20; 30; 50]%Q 90%Q in
  let w := mkWorld {["web1" := 50%Q]} [web1] [] in
  let run := process_sample config delete_fails web1 95%Q w in
  new_events w (after run)
    = [SendMessage (TrafficExceeded "web1" 95%Q); Log WARNING (LimitExceeded "web1");
       GetByName "web1"; Delete "web1"; Log ERROR (DeleteServerFailed "web1");
       Log ERROR (ServerNotDeleted "web1")] ∧
  cloud (after run) = [web1] ∧
  ∃ before rest,
    new_events w (after run) = before ++ SendMessage (TrafficExceeded "web1" 95%Q) :: rest ∧
    (∀ n, GetByName n ∉ before) ∧ (∀ n, Delete n ∉ before) ∧
    GetByName "web1" ∈ rest ∧
    (result (delete_server delete_fails "web1" (alerted delete_fails web1 95%Q w))
       = Ok (PyBool false) →
     cloud (after run) = [web1] ∧ Log ERROR (ServerNotDeleted "web1") ∈ rest).
Proof.
  intros config w run. split; [reflexivity|]. split; [reflexivity|].
  apply (exceeded_alert_precedes_delete config delete_fails web1 95%Q w).
  simpl. lra.
Defined.

(** C2 (amended): for every sample at or over the limit the destroy action
    is carried out (the alert is sent and the delete is attempted), but the
    threshold check of the same sample runs first and is not suppressed: when
    a threshold is newly crossed its warning is sent before the alert, and
    only when none is newly crossed the sample sends no warning.  With usage
    95, limit 90, thresholds 10 ... 90 and last notified 80 the sample warns
    for 90 and then destroys. *)
Theorem destroy_follows_warning (config : Config)
    (fails : list Event → Event → bool) (server : Server) (usage_percent : Q)
    (w : World) :
  (traffic_limit_percent config <= usage_percent)%Q →
  let last := last_notified w (name server) in
  let run := process_sample config fails server usage_percent w in
  let alert := SendMessage (TrafficExceeded (name server) usage_percent) in
  let warning :=
    SendMessage (TrafficWarning (name server) usage_percent (status server)) in
  result run = Ok PyNone ∧
  alert ∈ new_events w (after run) ∧
  GetByName (name server) ∈ new_events w (after run) ∧
  (∀ pre threshold post,
     notification_thresholds config = pre ++ threshold :: post →
     Forall (fun x => ¬ newly_crossed usage_percent last x) pre →
     newly_crossed usage_percent last threshold →
     ∃ rest,
       new_events w (after run)
       = warning_events fails (trace w) server usage_percent threshold ++ alert :: rest) ∧
  (Forall (fun x => ¬ newly_crossed usage_percent last x)
          (notification_thresholds config) →
   ∃ rest, new_events w (after run) = alert :: rest ∧ warning ∉ rest) ∧
  (notification_thresholds config = [10; 20; 30; 40; 50; 60; 70; 80; 90]%Q →
   usage_percent = 95%Q →
   notified_thresholds w !! name server = Some 80%Q →
   ∃ rest,
     new_events w (after run)
     = warning_events fails (trace w) server 95 90 ++ alert :: rest).
Proof.
  intros Hlimit last run alert warning.
  destruct (process_sample_events config fails server usage_percent w Hlimit)
    as (Hres & events & Hevents & Hquiet).
  fold run in Hres, Hevents. cbv zeta in Hevents.
  assert (Hfires : ∀ pre threshold post,
     notification_thresholds config = pre ++ threshold :: post →
     Forall (fun x => ¬ newly_crossed usage_percent last x) pre →
     newly_crossed usage_percent last threshold →
     ∃ rest,
       new_events w (after run)
       = warning_events fails (trace w) server usage_percent threshold ++ alert :: rest).
  { intros pre t post Heq Hpre Ht. eexists. rewrite Hevents.
    rewrite (check_notification_thresholds_fires config fails server usage_percent w
               pre t post) by done.
    unfold after at 1. cbn [snd].
    erewrite new_events_app by done. reflexivity. }
  split_and!.
  - done.
  - rewrite Hevents. among.
  - rewrite Hevents. among.
  - exact Hfires.
  - intros Hall. eexists. rewrite Hevents.
    rewrite (check_notification_thresholds_silent config fails server usage_percent w)
      by done.
    unfold after. cbn [snd].
    erewrite (new_events_app w w []) by by rewrite app_nil_r.
    split; [reflexivity|].
    unfold telegram_errors. intros Hin.
    apply elem_of_app in Hin as [Hin|Hin];
      [destruct (fails _ _); revert Hin; not_among|].
    do 2 (apply elem_of_cons in Hin as [Hin|Hin]; [discriminate|]).
    by apply (Hquiet _) in Hin.
  - intros Hcfg -> Hlast.
    apply (Hfires [10; 20; 30; 40; 50; 60; 70; 80]%Q 90%Q []); [done|..];
      unfold last, last_notified; rewrite Hlast; simpl; q_facts.
Qed.

Lemma destroy_follows_warning_example :
  let w := mkWorld {["web1" := 80%Q]} [web1] [] in
  let run := process_sample staged_config never_fails web1 95%Q w in
  result run = Ok PyNone ∧
  SendMessage (TrafficExceeded "web1" 95%Q) ∈ new_events w (after run) ∧
  GetByName "web1" ∈ new_events w (after run) ∧
  ∃ rest,
    new_events w (after run)
    = warning_events never_fails [] web1 95 90
        ++ SendMessage (TrafficExceeded "web1" 95%Q) :: rest.
Proof.
  intros w run.
  destruct (destroy_follows_warning staged_config never_fails web1 95%Q w)
    as (Hres & Halert & Hlookup & _ & _ & Hexample).
  { simpl. lra. }
  split_and!; [exact Hres|exact Halert|exact Hlookup|].
  apply Hexample; reflexivity.
Defined.

(** C2 as stated fails: at usage 95 with limit 90, thresholds 10 ... 90 and
    last notified 80, the sample sends the warning for threshold 90 and then
    destroys the server.  The same happens in a whole pass of
    [check_traffic_and_notify]: a server with a 1 GB disk is sampled at 50
    percent, and with limit 50 and last notified 30 the pass warns for 50 and
    deletes the server. *)
Lemma warning_and_destroy_in_one_sample :
  let w := mkWorld {["web1" := 80%Q]} [web1] [] in
  let run := process_sample staged_config never_fails web1 95%Q w in
  let small := mkServer "web2" "running" "cx11" "debian-12" "nbg1" [] (Some 1%Z) "198.51.100.9" in
  let w2 := mkWorld {["web2" := 30%Q]} [small] [] in
  let usage := (inject_Z 500 / inject_Z 1000 * 100)%Q in
  let pass := check_traffic_and_notify (example_config [10; 20; 30; 50]%Q 50%Q) never_fails w2 in
  (traffic_limit_percent staged_config <= 95)%Q ∧
  new_events w (after run)
    = [SendMessage (TrafficWarning "web1" 95%Q "running");
       Log INFO (ThresholdReached "web1" 90%Q);
       SendMessage (TrafficExceeded "web1" 95%Q);
       Log WARNING (LimitExceeded "web1");
       GetByName "web1"; Delete "web1";
       Log INFO (ServerDeleted "web1")] ∧
  cloud (after run) = [] ∧
  new_events w2 (after pass)
    = [Log INFO CheckStarted; GetAll;
       SendMessage (TrafficWarning "web2" usage "running");
       Log INFO (ThresholdReached "web2" 50%Q);
       SendMessage (TrafficExceeded "web2" usage);
       Log WARNING (LimitExceeded "web2");
       GetByName "web2"; Delete "web2";
       Log INFO (ServerDeleted "web2")].
Proof.
  simpl. split_and!; [lra|reflexivity..].
Qed.

(** ** Reset of the notified threshold *)

(** The policy path resets: when the delete of [handle_traffic_exceeded]
    returns [True] the entry of the server is removed, and the next check
    reads the default [0] for it. *)
Lemma handle_traffic_exceeded_resets (fails : list Event → Event → bool)
    (server : Server) (usage_percent : Q) (w : World) :
  result (delete_server fails (name server) (alerted fails server usage_percent w))
    = Ok (PyBool true) →
  let run := handle_traffic_exceeded fails server usage_percent w in
  notified_thresholds (after run) = delete (name server) (notified_thresholds w) ∧
  notified_thresholds (after run) !! name server = None ∧
  last_notified (after run) (name server) = 0%Q ∧
  (∀ s, s ∈ cloud (after run) → name s ≠ name server).
Proof.
  intros Hres run. subst run.
  rewrite handle_traffic_exceeded_run, Hres.
  destruct (delete_server_effect fails (name server)
              (alerted fails server usage_percent w)) as (_ & _ & Hgone).
  destruct (Hgone Hres) as [_ Hcloud].
  unfold after, last_notified in *. cbn [snd notified_thresholds cloud].
  rewrite lookup_delete_eq. split_and!; try done.
  rewrite Hcloud.
  intros s Hin Heq. unfold without_server in Hin.
  apply list_elem_of_In, filter_In in Hin as [_ Hb].
  apply negb_true_iff, String.eqb_neq in Hb. done.
Qed.

(** Neither the [/stop] handler nor the scheduled shutdown ever writes
    [notified_thresholds]. *)
Lemma stop_server_frame (fails : list Event → Event → bool)
    (message_text : string) (w : World) :
  notified_thresholds (after (stop_server fails message_text w))
  = notified_thresholds w.
Proof.
  unfold stop_server, try_except, bind at 1.
  destruct (after_first_space message_text) as [server_name|]; unfold ret, raise.
  - unfold bind at 1.
    destruct (delete_server_frame fails server_name w) as (Hnotified & [b Hb] & _).
    destruct (delete_server fails server_name w) as [o w1].
    unfold result, after in *. simpl in *. subst o. simpl.
    destruct b; run_monad; by destruct (fails _ _).
  - run_monad. by destruct (fails _ _).
Qed.

Lemma shutdown_servers_frame (fails : list Event → Event → bool) (w : World) :
  notified_thresholds (after (shutdown_servers fails w)) = notified_thresholds w.
Proof.
  assert (Hloop : ∀ servers w0,
            notified_thresholds (after (for_each servers (shutdown_step fails) w0))
            = notified_thresholds w0).
  { induction servers as [|server rest IH]; intros w0; [done|].
    simpl. unfold bind at 1, shutdown_step at 1, bind at 1.
    destruct (delete_server_frame fails (name server) w0) as (Hnotified & [b Hb] & _).
    destruct (delete_server fails (name server) w0) as [o w1].
    unfold result, after in *. simpl in *. subst o. simpl.
    destruct b.
    - rewrite send_telegram_message_run. by rewrite IH.
    - unfold ret. by rewrite IH. }
  change (shutdown_servers fails w) with
    ((log INFO ShutdownStarted ;;
      servers <- get_all_servers fails ;;
      for_each servers (shutdown_step fails)) w).
  unfold bind at 1, log, modify. unfold bind.
  assert (Hlist : ∀ w0, ∃ servers w1,
            get_all_servers fails w0 = (Ok servers, w1) ∧
            notified_thresholds w1 = notified_thresholds w0).
  { intros w0. unfold get_all_servers, servers_get_all. run_monad.
    destruct (fails _ GetAll); simpl; by eexists _, _. }
  destruct (Hlist (emit (Log INFO ShutdownStarted) w)) as (servers & w1 & -> & Hw1).
  by rewrite Hloop, Hw1.
Qed.

(** C4, where the code departs from it: the scheduled shutdown and the
    [/stop] command never touch [notified_thresholds], so they delete a
    server and leave its entry.  With entry 50 for web1, both delete web1 and
    keep the entry; a later check at 55 percent then fires on nothing, where
    a server that was never notified fires on 10. *)
Theorem shutdown_and_stop_keep_notified_threshold :
  (∀ fails w,
     notified_thresholds (after (shutdown_servers fails w)) = notified_thresholds w) ∧
  (∀ fails message_text w,
     notified_thresholds (after (stop_server fails message_text w))
     = notified_thresholds w) ∧
  let config := example_config [10; 20; 30; 50]%Q 90%Q in
  let w := mkWorld {["web1" := 50%Q]} [web1] [] in
  let shut := shutdown_servers never_fails w in
  let stopped := stop_server never_fails "/stop web1" w in
  let fresh_check := check_notification_thresholds config never_fails web1 55%Q empty_world in
  (cloud (after shut) = [] ∧
   new_events w (after shut)
     = [Log INFO ShutdownStarted; GetAll; GetByName "web1"; Delete "web1";
        SendMessage (ShutdownDone "web1")] ∧
   notified_thresholds (after shut) !! "web1" = Some 50%Q ∧
   check_notification_thresholds config never_fails web1 55%Q (after shut)
     = (Ok PyNone, after shut))
  ∧ (cloud (after stopped) = [] ∧
     new_events w (after stopped)
       = [GetByName "web1"; Delete "web1"; ReplyTo (StopDeleted "web1")] ∧
     notified_thresholds (after stopped) !! "web1" = Some 50%Q ∧
     check_notification_thresholds config never_fails web1 55%Q (after stopped)
       = (Ok PyNone, after stopped))
  ∧ thresholds_reached "web1" (new_events empty_world (after fresh_check)) = [10%Q].
Proof.
  split; [exact shutdown_servers_frame|].
  split; [exact stop_server_frame|].
  simpl. split_and!; reflexivity.
Qed.

(** ** The usage probe *)

(** C9: when the probe of [get_traffic_usage] raises (the disk size of the
    server is [None]), the method logs the error and returns the fixed
    sample total 1000, used 0, remaining 1000.  The caller computes 0
    percent from it, the same as from any sample with nothing used. *)
Theorem failed_probe_reads_as_unused (server : Server) (w : World) :
  primary_disk_size server = None →
  let run := get_traffic_usage server w in
  result run = Ok (mkTrafficInfo 1000 0 1000) ∧
  after run = emit (Log ERROR (TrafficProbeFailed (name server))) w ∧
  (∃ q, usage_percent_of (mkTrafficInfo 1000 0 1000) (after run) = (Ok q, after run) ∧
        (q == 0)%Q) ∧
  (∀ unused, used unused = 0%Z → total unused ≠ 0%Z →
     ∃ q, usage_percent_of unused (after run) = (Ok q, after run) ∧ (q == 0)%Q).
Proof.
  intros Hnone run. subst run.
  unfold get_traffic_usage. rewrite Hnone. run_monad.
  unfold result, after. simpl. split_and!; try done.
  - eexists. split; [reflexivity|]. reflexivity.
  - intros unused Hused Htotal. unfold usage_percent_of.
    apply Z.eqb_neq in Htotal. rewrite Htotal, Hused.
    eexists. split; [reflexivity|].
    unfold Qeq, Qmult, Qdiv, Qinv, inject_Z. simpl. lia.
Qed.

Lemma failed_probe_reads_as_unused_example :
  let broken := mkServer "web3" "running" "cx21" "ubuntu-22.04" "fsn1" [] None "198.51.100.5" in
  let run := get_traffic_usage broken empty_world in
  result run = Ok (mkTrafficInfo 1000 0 1000) ∧
  after run = emit (Log ERROR (TrafficProbeFailed "web3")) empty_world ∧
  (∃ q, usage_percent_of (mkTrafficInfo 1000 0 1000) (after run) = (Ok q, after run) ∧
        (q == 0)%Q) ∧
  (∀ unused, used unused = 0%Z → total unused ≠ 0%Z →
     ∃ q, usage_percent_of unused (after run) = (Ok q, after run) ∧ (q == 0)%Q).
Proof.
  intros broken run.
  apply (failed_probe_reads_as_unused broken empty_world). reflexivity.
Defined.

(** ** Rebuilding a server *)



(** ** The scheduled shutdown *)

Lemma shutdown_notices_app (l1 l2 : list Event) :
  shutdown_notices (l1 ++ l2) = shutdown_notices l1 ++ shutdown_notices l2.
Proof.
  induction l1 as [|ev l1 IH]; [done|].
  destruct ev as [| | | |m| | |]; simpl; try done.
  destruct m; simpl; by rewrite ?IH.
Qed.

Lemma without_server_elem (n : string) (servers : list Server) (s : Server) :
  s ∈ without_server n servers ↔ s ∈ servers ∧ name s ≠ n.
Proof.
  unfold without_server. rewrite !list_elem_of_In, filter_In.
  by rewrite negb_true_iff, String.eqb_neq.
Qed.

Lemma without_server_absent (n : string) (servers : list Server) :
  n ∉ map name servers → without_server n servers = servers.
Proof.
  induction servers as [|a servers IH]; [done|].
  simpl. intros Hnot.
  apply not_elem_of_cons in Hnot as [Hne Hnot].
  assert (String.eqb (name a) n = false) as -> by (apply String.eqb_neq; congruence).
  simpl. f_equal. by apply IH.
Qed.

Lemma without_server_length (n : string) (servers : list Server) :
  NoDup (map name servers) →
  (∃ s, s ∈ servers ∧ name s = n) →
  S (length (without_server n servers)) = length servers.
Proof.
  induction servers as [|a servers IH]; intros Hnodup (s & Hin & Hname).
  - by apply elem_of_nil in Hin.
  - simpl in Hnodup. apply NoDup_cons in Hnodup as [Hfresh Hnodup]. simpl.
    destruct (String.eqb (name a) n) eqn:Ha; simpl;
      fold (without_server n servers).
    + apply String.eqb_eq in Ha. rewrite <- Ha.
      by rewrite without_server_absent.
    + apply String.eqb_neq in Ha. f_equal. apply IH; [done|].
      exists s. split; [|done].
      apply elem_of_cons in Hin as [->|Hin]; [congruence|done].
Qed.

Lemma without_server_NoDup (n : string) (servers : list Server) :
  NoDup (map name servers) → NoDup (map name (without_server n servers)).
Proof.
  induction servers as [|a servers IH]; [done|].
  simpl. intros [Hfresh Hnodup]%NoDup_cons.
  destruct (negb (String.eqb (name a) n)); simpl;
    fold (without_server n servers); [|by apply IH].
  apply NoDup_cons. split; [|by apply IH].
  intros Hin. apply Hfresh.
  apply list_elem_of_In, in_map_iff in Hin as (x & Hx & Hin).
  apply list_elem_of_In, in_map_iff. exists x. split; [done|].
  apply list_elem_of_In, without_server_elem in Hin as [Hin _].
  by apply list_elem_of_In.
Qed.

Lemma lookup_server_present (s : Server) (w : World) :
  s ∈ cloud w → is_Some (lookup_server (name s) w).
Proof.
  intros Hin.
  destruct (lookup_server (name s) w) eqn:Hfound; [by eexists|].
  pose proof (proj2 (lookup_server_absent _ _) Hfound s Hin) as Hne. done.
Qed.

Section Shutdown.

Variable fails : list Event → Event → bool.

(** One turn of the loop, for a server that the provider still has. *)
Lemma shutdown_step_run (server : Server) (w : World) :
  server ∈ cloud w →
  let run := shutdown_step fails server w in
  let blocked :=
    fails (trace w) (GetByName (name server))
    || fails (trace w ++ [GetByName (name server)]) (Delete (name server)) in
  result run = Ok PyNone ∧
  notified_thresholds (after run) = notified_thresholds w ∧
  cloud (after run)
    = (if blocked then cloud w else without_server (name server) (cloud w)) ∧
  ∃ events,
    trace (after run) = trace w ++ GetByName (name server) :: events ∧
    shutdown_notices events = (if blocked then [] else [name server]).
Proof.
  intros Hin run blocked. subst run blocked.
  unfold shutdown_step, bind. rewrite delete_server_run.
  destruct (lookup_server_present _ _ Hin) as [found Hfound]. rewrite Hfound.
  destruct (fails (trace w) (GetByName (name server))); simpl.
  { unfold result, after. simpl. split_and!; try done. by eexists. }
  destruct (fails (trace w ++ [GetByName (name server)]) (Delete (name server))); simpl.
  { unfold result, after. simpl. split_and!; try done. by eexists. }
  rewrite send_telegram_message_run. unfold result, after. simpl.
  split_and!; try done. eexists. split.
  - rewrite <- app_assoc. simpl. reflexivity.
  - unfold telegram_errors. by destruct (fails _ _).
Qed.

(** The loop of [shutdown_servers] over a snapshot [servers] of servers
    that the provider still has, all with different names. *)
Lemma shutdown_loop (servers : list Server) (w : World) :
  NoDup (map name (cloud w)) →
  NoDup (map name servers) →
  (∀ s, s ∈ servers → s ∈ cloud w) →
  let run := for_each servers (shutdown_step fails) w in
  result run = Ok PyNone ∧
  notified_thresholds (after run) = notified_thresholds w ∧
  ∃ events,
    trace (after run) = trace w ++ events ∧
    (∀ s, s ∈ servers → GetByName (name s) ∈ events) ∧
    sublist (shutdown_notices events) (map name servers) ∧
    (∀ s, s ∈ cloud (after run) ↔ s ∈ cloud w ∧ name s ∉ shutdown_notices events) ∧
    length (cloud (after run)) + length (shutdown_notices events) = length (cloud w) ∧
    (∀ bad, (∀ history call, fails history call = bad call) →
       shutdown_notices events = map name (List.filter (deletable bad) servers)).
Proof.
  revert w. induction servers as [|server rest IH]; intros w Hcloud Hnodup Hknown.
  - simpl. unfold result, after. simpl. split_and!; try done.
    exists []. rewrite app_nil_r. split_and!; try done.
    + intros s Hin. by apply elem_of_nil in Hin.
    + intros s. split; [intros Hin; split; [done|apply not_elem_of_nil]|by intros [? _]].
  - simpl in Hnodup. apply NoDup_cons in Hnodup as [Hfresh Hnodup].
    assert (Hhere : server ∈ cloud w) by (apply Hknown; apply list_elem_of_here).
    destruct (shutdown_step_run server w Hhere)
      as (Hres & Hnotified & Hcloud1 & ev1 & Htrace1 & Hnotices1).
    cbv zeta.
    assert (Hrun : for_each (server :: rest) (shutdown_step fails) w
                   = for_each rest (shutdown_step fails)
                       (after (shutdown_step fails server w))).
    { simpl. unfold bind, after, result in *.
      destruct (shutdown_step fails server w) as [o w1]. simpl in *. by subst o. }
    rewrite Hrun. clear Hrun Hres.
    set (w1 := after (shutdown_step fails server w)) in *.
    set (blocked := fails (trace w) (GetByName (name server))
                    || fails (trace w ++ [GetByName (name server)]) (Delete (name server)))
      in *.
    assert (Hrest : ∀ s, s ∈ rest → s ∈ cloud w1).
    { intros s Hin. rewrite Hcloud1.
      assert (s ∈ cloud w) by (apply Hknown; by apply list_elem_of_further).
      destruct blocked; [done|].
      apply without_server_elem. split; [done|].
      intros Heq. apply Hfresh. rewrite <- Heq.
      apply list_elem_of_In, in_map. by apply list_elem_of_In. }
    assert (Hcloud' : NoDup (map name (cloud w1))).
    { rewrite Hcloud1. destruct blocked; [done|]. by apply without_server_NoDup. }
    destruct (IH w1 Hcloud' Hnodup Hrest)
      as (Hres2 & Hnotified2 & ev2 & Htrace2 & Htried & Hsub & Hleft & Hcount & Hstatic).
    split_and!; [done|by rewrite Hnotified2|].
    exists (GetByName (name server) :: ev1 ++ ev2).
    assert (Hnotices : shutdown_notices (GetByName (name server) :: ev1 ++ ev2)
                       = (if blocked then [] else [name server]) ++ shutdown_notices ev2).
    { simpl. by rewrite shutdown_notices_app, Hnotices1. }
    rewrite Hnotices.
    split_and!.
    + rewrite Htrace2, Htrace1. rewrite <- app_assoc. by simpl.
    + intros s Hin. apply elem_of_cons in Hin as [->|Hin]; [apply list_elem_of_here|].
      apply list_elem_of_further, elem_of_app. right. by apply Htried.
    + destruct blocked; simpl; [by apply sublist_cons|by apply sublist_skip].
    + intros s. rewrite Hleft, Hcloud1.
      destruct blocked; simpl; [done|].
      rewrite without_server_elem, not_elem_of_cons. tauto.
    + rewrite Hcloud1 in Hcount. destruct blocked; simpl; [done|].
      rewrite <- (without_server_length (name server) (cloud w)); [simpl; lia|done|].
      by exists server.
    + intros bad Hbad. rewrite (Hstatic bad Hbad).
      unfold blocked. rewrite !Hbad. simpl. unfold deletable at 2.
      by destruct (bad (GetByName (name server)) || bad (Delete (name server))).
Qed.

End Shutdown.

(** C6 (amended): when the listing works, [shutdown_servers] attempts the
    delete of every server the provider has (names being unique); a delete
    that fails does not stop the loop.  The method returns [None], not a
    count: what tells the servers destroyed is the "shutdown done" messages,
    one per server deleted, in the order of the listing.  The servers left
    are exactly those without such a message, and for a provider whose
    failures do not depend on the history the servers destroyed are exactly
    those whose lookup and delete go through.  [notified_thresholds] is left
    as it was. *)
Theorem shutdown_servers_batch (fails : list Event → Event → bool) (w : World) :
  NoDup (map name (cloud w)) →
  fails (trace w ++ [Log INFO ShutdownStarted]) GetAll = false →
  let run := shutdown_servers fails w in
  let events := new_events w (after run) in
  let destroyed := shutdown_notices events in
  result run = Ok PyNone ∧
  notified_thresholds (after run) = notified_thresholds w ∧
  (∀ s, s ∈ cloud w → GetByName (name s) ∈ events) ∧
  sublist destroyed (map name (cloud w)) ∧
  (∀ s, s ∈ cloud (after run) ↔ s ∈ cloud w ∧ name s ∉ destroyed) ∧
  length (cloud (after run)) + length destroyed = length (cloud w) ∧
  (∀ bad, (∀ history call, fails history call = bad call) →
     destroyed = map name (List.filter (deletable bad) (cloud w))).
Proof.
  intros Hnodup Hlist run events destroyed. subst destroyed events run.
  assert (Hrun : shutdown_servers fails w
                 = for_each (cloud w) (shutdown_step fails)
                     (mkWorld (notified_thresholds w) (cloud w)
                        (trace w ++ [Log INFO ShutdownStarted; GetAll]))).
  { unfold shutdown_servers, get_all_servers, servers_get_all. run_monad.
    rewrite Hlist. simpl. by rewrite <- app_assoc. }
  rewrite Hrun. clear Hrun.
  match goal with
  | |- context [for_each _ _ ?w0] =>
      destruct (shutdown_loop fails (cloud w) w0)
        as (Hres & Hnotified & ev & Htrace & Htried & Hsub & Hleft & Hcount & Hstatic);
      [done..|]
  end.
  simpl in *.
  erewrite new_events_app; [|by rewrite Htrace, <- app_assoc].
  simpl. split_and!; try done.
  intros s Hin. do 2 apply list_elem_of_further. by apply Htried.
Qed.

Lemma shutdown_servers_batch_example :
  let run := shutdown_servers delete_of_B_fails three_servers in
  let events := new_events three_servers (after run) in
  (cloud (after run) = [server_named "B"] ∧ shutdown_notices events = ["A"; "C"]) ∧
  result run = Ok PyNone ∧
  notified_thresholds (after run) = ∅ ∧
  (∀ s, s ∈ cloud three_servers → GetByName (name s) ∈ events) ∧
  sublist (shutdown_notices events) ["A"; "B"; "C"] ∧
  (∀ s, s ∈ cloud (after run)
        ↔ s ∈ cloud three_servers ∧ name s ∉ shutdown_notices events) ∧
  length (cloud (after run)) + length (shutdown_notices events) = 3 ∧
  (∀ bad, (∀ history call, delete_of_B_fails history call = bad call) →
     shutdown_notices events = map name (List.filter (deletable bad) (cloud three_servers))).
Proof.
  intros run events. split; [by split|].
  apply (shutdown_servers_batch delete_of_B_fails three_servers).
  - simpl. repeat constructor; not_among.
  - reflexivity.
Defined.

(** C6 as stated fails on the count: over servers A, B, C where the delete
    of B fails, A and C are destroyed and B is left, but the method returns
    [None], not 2 (two "shutdown done" messages are sent). *)
Lemma shutdown_servers_returns_no_count :
  let run := shutdown_servers delete_of_B_fails three_servers in
  cloud (after run) = [server_named "B"] ∧
  new_events three_servers (after run)
    = [Log INFO ShutdownStarted; GetAll;
       GetByName "A"; Delete "A"; SendMessage (ShutdownDone "A");
       GetByName "B"; Delete "B"; Log ERROR (DeleteServerFailed "B");
       GetByName "C"; Delete "C"; SendMessage (ShutdownDone "C")] ∧
  result run = Ok PyNone ∧
  result run ≠ Ok (PyInt 2).
Proof.
  simpl. split_and!; try reflexivity. discriminate.
Qed.

(** ** The traffic pass *)

(** A loop whose every turn returns normally and keeps a preorder [R] on
    worlds returns normally and keeps [R]. *)
Lemma for_each_preserves {A} (body : A → M py_value) (R : World → World → Prop)
    (xs : list A) :
  (∀ w, R w w) →
  (∀ w1 w2 w3, R w1 w2 → R w2 w3 → R w1 w3) →
  (∀ x w, x ∈ xs → result (body x w) = Ok PyNone ∧ R w (after (body x w))) →
  ∀ w, result (for_each xs body w) = Ok PyNone ∧ R w (after (for_each xs body w)).
Proof.
  intros Hrefl Htrans. induction xs as [|x xs IH]; intros Hbody w.
  - by split.
  - simpl. unfold bind.
    destruct (Hbody x w (list_elem_of_here _ _)) as [Hres Hstep].
    destruct (body x w) as [o w1]. unfold result, after in *. simpl in *. subst o.
    destruct (IH (fun y w0 Hy => Hbody y w0 (list_elem_of_further _ _ _ Hy)) w1)
      as [Hres' Hrest].
    split; [done|]. by eapply Htrans.
Qed.

Section Pass.

Variable config : Config.
Variable fails : list Event → Event → bool.

(** A sample never raises. *)
Lemma process_sample_returns (server : Server) (usage_percent : Q) (w : World) :
  result (process_sample config fails server usage_percent w) = Ok PyNone.
Proof.
  destruct (Qle_bool (traffic_limit_percent config) usage_percent) eqn:Hlimit.
  - apply Qle_bool_iff in Hlimit. rewrite process_sample_over_limit by done.
    apply handle_traffic_exceeded_events.
  - unfold process_sample. rewrite Hlimit. unfold bind.
    destruct (check_notification_thresholds_quiet config fails server usage_percent w)
      as [Hres _].
    destruct (check_notification_thresholds _ _ _ _ _) as [o w1].
    unfold result in *. simpl in *. by subst o.
Qed.

(** Under the limit, a sample is the threshold check alone. *)
Lemma process_sample_under_limit (server : Server) (usage_percent : Q) (w : World) :
  (usage_percent < traffic_limit_percent config)%Q →
  process_sample config fails server usage_percent w
  = check_notification_thresholds config fails server usage_percent w.
Proof.
  intros Hunder.
  assert (Qle_bool (traffic_limit_percent config) usage_percent = false) as Hb.
  { destruct (Qle_bool _ _) eqn:Hb; [|done].
    apply Qle_bool_iff in Hb. exfalso. eapply Qlt_not_le; eauto. }
  unfold process_sample. rewrite Hb. unfold bind.
  destruct (check_notification_thresholds_quiet config fails server usage_percent w)
    as [Hres _].
  destruct (check_notification_thresholds _ _ _ _ _) as [o w1].
  unfold result in *. simpl in *. by subst o.
Qed.

(** All the runs of one turn of the pass, by the disk size of the server. *)
Lemma check_step_run (server : Server) (w : World) :
  check_step config fails server w =
  match primary_disk_size server with
  | None =>
      process_sample config fails server default_usage
        (emit (Log ERROR (TrafficProbeFailed (name server))) w)
  | Some size =>
      if (size * 1000 =? 0)%Z
      then (Ok PyNone, emit (Log ERROR (CheckServerFailed (name server))) w)
      else process_sample config fails server (sampled_usage size) w
  end.
Proof.
  unfold check_step, get_traffic_usage, usage_percent_of.
  destruct (primary_disk_size server) as [size|].
  - unfold try_except at 1, bind at 1, try_except at 1, ret at 1. cbn [total used].
    destruct (size * 1000 =? 0)%Z eqn:Hzero.
    + by run_monad.
    + unfold bind at 1, ret at 1. fold (sampled_usage size).
      pose proof (process_sample_returns server (sampled_usage size) w) as Hres.
      destruct (process_sample _ _ _ _ _) as [o w1].
      unfold result in Hres. simpl in *. by subst o.
  - unfold try_except at 1, bind at 1, try_except at 1, raise at 1.
    unfold bind at 1, log at 1, modify at 1, ret at 1. cbn [total used].
    change (1000 =? 0)%Z with false. cbv iota.
    unfold bind at 1, ret at 1. fold default_usage.
    pose proof (process_sample_returns server default_usage
                  (emit (Log ERROR (TrafficProbeFailed (name server))) w)) as Hres.
    destruct (process_sample _ _ _ _ _) as [o w1].
    unfold result in Hres. simpl in *. by subst o.
Qed.

Lemma check_step_returns (server : Server) (w : World) :
  result (check_step config fails server w) = Ok PyNone.
Proof.
  rewrite check_step_run. repeat case_match; try done; apply process_sample_returns.
Qed.

(** The pass, when the listing works, is the loop over the servers listed. *)
Lemma check_traffic_and_notify_lists (w : World) :
  fails (trace w ++ [Log INFO CheckStarted]) GetAll = false →
  check_traffic_and_notify config fails w
  = for_each (cloud w) (check_step config fails)
      (mkWorld (notified_thresholds w) (cloud w)
         (trace w ++ [Log INFO CheckStarted; GetAll])).
Proof.
  intros Hlist.
  change (check_traffic_and_notify config fails w) with
    ((log INFO CheckStarted ;;
      servers <- get_all_servers fails ;;
      for_each servers (check_step config fails)) w).
  unfold get_all_servers, servers_get_all. run_monad.
  rewrite Hlist. simpl. by rewrite <- app_assoc.
Qed.

(** The pass, when the listing raises, only logs. *)
Lemma check_traffic_and_notify_unlisted (w : World) :
  fails (trace w ++ [Log INFO CheckStarted]) GetAll = true →
  check_traffic_and_notify config fails w
  = (Ok PyNone,
     mkWorld (notified_thresholds w) (cloud w)
       (trace w ++ [Log INFO CheckStarted; GetAll; Log ERROR ListServersFailed])).
Proof.
  intros Hlist.
  unfold check_traffic_and_notify, get_all_servers, servers_get_all. run_monad.
  rewrite Hlist. simpl. by rewrite <- !app_assoc.
Qed.

End Pass.

(** X1: no exception escapes the scheduled jobs: whatever the provider and
    the bot do, and whatever the servers are, [check_traffic_and_notify] and
    [shutdown_servers] return [None]; a turn of their loops that fails does
    not end the loop with an exception. *)
Theorem scheduled_jobs_never_raise (config : Config)
    (fails : list Event → Event → bool) (w : World) :
  result (check_traffic_and_notify config fails w) = Ok PyNone ∧
  result (shutdown_servers fails w) = Ok PyNone.
Proof.
  split.
  - destruct (fails (trace w ++ [Log INFO CheckStarted]) GetAll) eqn:Hlist.
    + by rewrite check_traffic_and_notify_unlisted.
    + rewrite check_traffic_and_notify_lists by done.
      apply (for_each_preserves (check_step config fails) (fun _ _ => True));
        try done.
      intros server w0 _. split; [apply check_step_returns|done].
  - change (shutdown_servers fails w) with
      ((log INFO ShutdownStarted ;;
        servers <- get_all_servers fails ;;
        for_each servers (shutdown_step fails)) w).
    unfold bind at 1, log, modify. unfold bind.
    assert (Hlist : ∃ servers w1,
              get_all_servers fails (emit (Log INFO ShutdownStarted) w)
              = (Ok servers, w1)).
    { unfold get_all_servers, servers_get_all. run_monad.
      destruct (fails _ GetAll); simpl; by eexists _, _. }
    destruct Hlist as (servers & w1 & ->).
    apply (for_each_preserves (shutdown_step fails) (fun _ _ => True)); try done.
    intros server w0 _. split; [|done].
    unfold shutdown_step, bind.
    destruct (delete_server_frame fails (name server) w0) as (_ & [b Hb] & _).
    destruct (delete_server fails (name server) w0) as [o w2].
    unfold result in *. simpl in *. subst o.
    destruct b; simpl; [by rewrite send_telegram_message_run|done].
Qed.

(** ** What one turn of the pass can do *)

Lemma destroy_event_reaches_nothing (n key : string) (events : list Event) :
  Forall (destroy_event n) events → thresholds_reached key events = [].
Proof.
  induction 1 as [|ev events Hev _ IH]; [done|].
  destruct ev as [| | | | | | |level record]; simpl; try done.
  destruct level, record; simpl in *; done.
Qed.

Lemma destroy_event_subject (n : string) (ev : Event) :
  destroy_event n ev → subject ev = None ∨ subject ev = Some n.
Proof.
  destruct ev as [| | | |m| | |level record]; simpl; try done;
    try (intros ->; by right).
  - destruct m; simpl; try done. intros ->. by right.
  - destruct level, record; simpl; try done; try (intros ->; by right); by left.
Qed.

Section Turn.

Variable config : Config.
Variable fails : list Event → Event → bool.

(** What [handle_traffic_exceeded] does: it produces events of the destroy
    of that server only, and either leaves servers and thresholds as they
    were or removes the server and its entry. *)
Lemma handle_traffic_exceeded_shape (server : Server) (usage_percent : Q)
    (w : World) :
  let run := handle_traffic_exceeded fails server usage_percent w in
  (∃ events, trace (after run) = trace w ++ events ∧
             Forall (destroy_event (name server)) events) ∧
  ((notified_thresholds (after run) = notified_thresholds w ∧
    cloud (after run) = cloud w)
   ∨ (notified_thresholds (after run) = delete (name server) (notified_thresholds w) ∧
      cloud (after run) = without_server (name server) (cloud w))).
Proof.
  intros run. subst run.
  rewrite handle_traffic_exceeded_run, delete_server_run.
  unfold alerted, telegram_errors. cbn [trace cloud notified_thresholds].
  unfold lookup_server. cbn [cloud].
  repeat case_match; unfold result, after; cbn [fst snd trace cloud notified_thresholds];
    simplify_eq; (split; [|by (left + right)]).
  all: eexists; split;
    [rewrite <- ?app_assoc; simpl; rewrite <- ?app_assoc; simpl; reflexivity|].
  all: by repeat constructor.
Qed.

(** What the threshold check does: nothing, or one warning for a configured
    threshold that the usage reaches, recorded for that server only. *)
Lemma check_notification_thresholds_shape (server : Server) (usage_percent : Q)
    (w : World) :
  let run := check_notification_thresholds config fails server usage_percent w in
  ∃ warn,
    trace (after run) = trace w ++ warn ∧
    (warn = []
     ∨ ∃ t, warn = warning_events fails (trace w) server usage_percent t ∧
            (t <= usage_percent)%Q ∧ t ∈ notification_thresholds config) ∧
    cloud (after run) = cloud w ∧
    (∀ k, k ≠ name server →
          notified_thresholds (after run) !! k = notified_thresholds w !! k).
Proof.
  intros run. subst run.
  destruct (check_notification_thresholds_run config fails server usage_percent w)
    as [(pre & t & post & Heq & _ & [Hle _] & ->)|[_ ->]];
    unfold after; cbn [snd trace cloud notified_thresholds].
  - eexists. split_and!; [done| |done|].
    + right. exists t. split_and!; [done..|].
      rewrite Heq. apply elem_of_app. right. apply list_elem_of_here.
    + intros k Hk. by rewrite lookup_insert_ne.
  - exists []. rewrite app_nil_r. split_and!; try done. by left.
Qed.

(** What a sample does: at most one warning, then, over the limit only, the
    destroy of that server; other servers and their entries are not
    touched. *)
Lemma process_sample_shape (server : Server) (usage_percent : Q) (w : World) :
  let run := process_sample config fails server usage_percent w in
  ∃ warn rest,
    trace (after run) = trace w ++ warn ++ rest ∧
    (warn = []
     ∨ ∃ t, warn = warning_events fails (trace w) server usage_percent t ∧
            (t <= usage_percent)%Q ∧ t ∈ notification_thresholds config) ∧
    Forall (destroy_event (name server)) rest ∧
    ((usage_percent < traffic_limit_percent config)%Q →
       rest = [] ∧ cloud (after run) = cloud w) ∧
    (∀ k, k ≠ name server →
          notified_thresholds (after run) !! k = notified_thresholds w !! k) ∧
    (∀ x, name x ≠ name server → x ∈ cloud (after run) ↔ x ∈ cloud w).
Proof.
  intros run. subst run.
  destruct (check_notification_thresholds_shape server usage_percent w)
    as (warn & Htrace & Hwarn & Hcloud & Hothers).
  destruct (Qlt_le_dec usage_percent (traffic_limit_percent config)) as [Hunder|Hover].
  - rewrite process_sample_under_limit by done.
    exists warn, []. rewrite app_nil_r. split_and!; try done.
    intros x _. by rewrite Hcloud.
  - rewrite process_sample_over_limit by done.
    set (checked := after (check_notification_thresholds config fails server
                             usage_percent w)) in *.
    destruct (handle_traffic_exceeded_shape server usage_percent checked)
      as ((rest & Htrace' & Hrest) & Hstate).
    exists warn, rest. split_and!; try done.
    + by rewrite Htrace', Htrace, app_assoc.
    + intros Hunder. exfalso. eapply Qlt_not_le; eauto.
    + intros k Hk. destruct Hstate as [[-> _]|[-> _]]; [by apply Hothers|].
      rewrite lookup_delete_ne by done. by apply Hothers.
    + intros x Hx. destruct Hstate as [[_ ->]|[_ ->]]; rewrite ?Hcloud; [done|].
      rewrite without_server_elem. tauto.
Qed.

End Turn.

Lemma sampled_usage_at_most_50 (size : Z) :
  (size * 1000)%Z ≠ 0%Z → (sampled_usage size <= 50)%Q.
Proof.
  intros Hsize. unfold sampled_usage, Qle, Qmult, Qdiv, Qinv, inject_Z.
  destruct (size * 1000)%Z as [|p|p] eqn:Hp; simpl; lia.
Qed.

Lemma default_usage_at_most_50 : (default_usage <= 50)%Q.
Proof. by compute. Qed.

Section Turns.

Variable config : Config.
Variable fails : list Event → Event → bool.

(** What one turn of the pass does for its server: an optional error
    record of the probe, then a sample at a usage of at most 50 percent; or,
    for a disk of size 0, the error record of the turn alone. *)
Lemma check_step_shape (server : Server) (w : World) :
  let run := check_step config fails server w in
  ∃ probe warn rest usage_percent,
    trace (after run) = trace w ++ probe ++ warn ++ rest ∧
    (usage_percent <= 50)%Q ∧
    (probe = [] ∨ probe = [Log ERROR (TrafficProbeFailed (name server))]
     ∨ (probe = [Log ERROR (CheckServerFailed (name server))] ∧
        warn = [] ∧ rest = [] ∧
        notified_thresholds (after run) = notified_thresholds w ∧
        cloud (after run) = cloud w)) ∧
    (primary_disk_size server = Some 0%Z →
       probe = [Log ERROR (CheckServerFailed (name server))]) ∧
    (warn = []
     ∨ ∃ t, warn = warning_events fails (trace w ++ probe) server usage_percent t ∧
            (t <= usage_percent)%Q ∧ t ∈ notification_thresholds config) ∧
    Forall (destroy_event (name server)) rest ∧
    ((usage_percent < traffic_limit_percent config)%Q →
       rest = [] ∧ cloud (after run) = cloud w) ∧
    (∀ k, k ≠ name server →
          notified_thresholds (after run) !! k = notified_thresholds w !! k) ∧
    (∀ x, name x ≠ name server → x ∈ cloud (after run) ↔ x ∈ cloud w).
Proof.
  intros run. subst run. rewrite check_step_run.
  destruct (primary_disk_size server) as [size|] eqn:Hsize.
  - destruct (size * 1000 =? 0)%Z eqn:Hzero.
    + exists [Log ERROR (CheckServerFailed (name server))], [], [], 0%Q.
      unfold after, emit. simpl. split_and!; try done.
      * right. right. by split_and!.
      * by left.
    + apply Z.eqb_neq in Hzero.
      destruct (process_sample_shape config fails server (sampled_usage size) w)
        as (warn & rest & Htrace & Hwarn & Hrest & Hunder & Hothers & Hcloud).
      exists [], warn, rest, (sampled_usage size). rewrite app_nil_r.
      split_and!; try done.
      * by apply sampled_usage_at_most_50.
      * by left.
      * intros Heq. by simplify_eq.
  - set (w0 := emit (Log ERROR (TrafficProbeFailed (name server))) w).
    destruct (process_sample_shape config fails server default_usage w0)
      as (warn & rest & Htrace & Hwarn & Hrest & Hunder & Hothers & Hcloud).
    exists [Log ERROR (TrafficProbeFailed (name server))], warn, rest, default_usage.
    split_and!.
    + rewrite Htrace. unfold w0, emit. simpl. by rewrite <- !app_assoc.
    + apply default_usage_at_most_50.
    + right. by left.
    + intros Heq. congruence.
    + exact Hwarn.
    + exact Hrest.
    + exact Hunder.
    + exact Hothers.
    + exact Hcloud.
Qed.

(** The thresholds that a turn reaches for [key]: none for another server,
    at most one for its own. *)
Lemma check_step_reaches (key : string) (server : Server) (w : World) :
  ∃ events,
    trace (after (check_step config fails server w)) = trace w ++ events ∧
    (length (thresholds_reached key events) ≤ length (named key [server]))%nat.
Proof.
  destruct (check_step_shape server w)
    as (probe & warn & rest & u & Htrace & _ & Hprobe & _ & Hwarn & Hrest & _).
  exists (probe ++ warn ++ rest). split; [done|].
  rewrite !thresholds_reached_app.
  rewrite (destroy_event_reaches_nothing _ _ _ Hrest), app_nil_r.
  assert (thresholds_reached key probe = []) as ->.
  { destruct Hprobe as [->|[->|[-> _]]]; done. }
  rewrite app_nil_l.
  destruct Hwarn as [->|(t & -> & _)]; [simpl; lia|].
  destruct (decide (name server = key)) as [<-|Hne].
  - rewrite thresholds_reached_warning. unfold named. simpl.
    rewrite String.eqb_refl. simpl. lia.
  - rewrite thresholds_reached_warning_other by done. simpl. lia.
Qed.

(** Over a whole loop, the thresholds reached for [key] are at most as many
    as the servers listed under that name. *)
Lemma check_loop_reaches (key : string) (servers : list Server) (w : World) :
  ∃ events,
    trace (after (for_each servers (check_step config fails) w)) = trace w ++ events ∧
    (length (thresholds_reached key events) ≤ length (named key servers))%nat.
Proof.
  revert w. induction servers as [|server rest IH]; intros w.
  - exists []. unfold after. simpl. by rewrite app_nil_r.
  - simpl for_each. unfold bind.
    destruct (check_step_reaches key server w) as (ev1 & Htrace1 & Hlen1).
    pose proof (check_step_returns config fails server w) as Hres.
    destruct (check_step config fails server w) as [o w1].
    unfold result, after in *. simpl in Hres, Htrace1. subst o.
    destruct (IH w1) as (ev2 & Htrace2 & Hlen2).
    exists (ev1 ++ ev2). split.
    + unfold after in Htrace2. by rewrite Htrace2, Htrace1, app_assoc.
    + rewrite thresholds_reached_app, length_app.
      unfold named in *. simpl in *.
      destruct (String.eqb (name server) key); simpl in *; lia.
Qed.

End Turns.

Lemma named_at_most_one (key : string) (servers : list Server) :
  NoDup (map name servers) → (length (named key servers) ≤ 1)%nat.
Proof.
  induction servers as [|a servers IH]; [simpl; lia|].
  simpl. intros [Hfresh Hnodup]%NoDup_cons. unfold named in *. simpl.
  destruct (String.eqb (name a) key) eqn:Ha; [|by apply IH].
  apply String.eqb_eq in Ha. subst key. simpl.
  assert (List.filter (fun s => String.eqb (name s) (name a)) servers = []) as ->;
    [|simpl; lia].
  clear IH Hnodup. induction servers as [|b servers IH]; [done|].
  simpl in *. apply not_elem_of_cons in Hfresh as [Hne Hfresh].
  assert (String.eqb (name b) (name a) = false) as -> by (apply String.eqb_neq; congruence).
  by apply IH.
Qed.

Section Loops.

Variable config : Config.
Variable fails : list Event → Event → bool.

Lemma warning_events_subject (history : list Event) (server : Server)
    (usage_percent threshold : Q) (ev : Event) :
  ev ∈ warning_events fails history server usage_percent threshold →
  subject ev = None ∨ subject ev = Some (name server).
Proof.
  unfold warning_events, telegram_errors. intros Hin.
  destruct (fails _ _); simpl in Hin;
    repeat (apply elem_of_cons in Hin as [->|Hin]; [simpl; by (left + right)|]);
    by apply elem_of_nil in Hin.
Qed.

Lemma warning_events_calm (history : list Event) (server : Server)
    (usage_percent threshold : Q) :
  (threshold <= 50)%Q →
  Forall calm (warning_events fails history server usage_percent threshold).
Proof.
  intros Hle. unfold warning_events, telegram_errors.
  destruct (fails _ _); by repeat constructor.
Qed.

(** A turn for a server that is not called [key], or whose disk has size 0,
    leaves the entry and the servers of [key] alone, and says nothing about
    [key] but that the turn failed. *)
Lemma check_step_quiet (key : string) (server : Server) (w : World) :
  (name server = key → primary_disk_size server = Some 0%Z) →
  let w' := after (check_step config fails server w) in
  notified_thresholds w' !! key = notified_thresholds w !! key ∧
  (∀ x, name x = key → x ∈ cloud w' ↔ x ∈ cloud w) ∧
  ∃ events,
    trace w' = trace w ++ events ∧
    ∀ ev, ev ∈ events → subject ev = Some key →
          ev = Log ERROR (CheckServerFailed key) ∧ name server = key.
Proof.
  intros Hzero w'. subst w'.
  destruct (check_step_shape config fails server w)
    as (probe & warn & rest & u & Htrace & _ & Hprobe & Hdisk & Hwarn & Hrest
        & _ & Hothers & Hcloud).
  destruct (decide (name server = key)) as [Hname|Hname].
  - specialize (Hdisk (Hzero Hname)). subst probe.
    destruct Hprobe as [?|[?|(_ & -> & -> & Hnotified & Hsame)]]; try done.
    rewrite Hnotified, Hsame. split_and!; try done.
    eexists. split; [done|]. intros ev Hin _.
    apply list_elem_of_singleton in Hin. by subst.
  - split_and!.
    + apply Hothers. congruence.
    + intros x Hx. apply Hcloud. congruence.
    + eexists. split; [done|]. intros ev Hin Hsubject.
      assert (subject ev = None ∨ subject ev = Some (name server)) as [?|?];
        [|congruence..].
      apply elem_of_app in Hin as [Hin|Hin].
      { destruct Hprobe as [->|[->|[-> _]]];
          [by apply elem_of_nil in Hin|apply list_elem_of_singleton in Hin as ->..];
          by right. }
      apply elem_of_app in Hin as [Hin|Hin].
      { destruct Hwarn as [->|(t & -> & _)]; [by apply elem_of_nil in Hin|].
        by eapply warning_events_subject. }
      apply destroy_event_subject. rewrite Forall_forall in Hrest. by apply Hrest.
Qed.

(** The same over a whole loop. *)
Lemma check_loop_quiet (key : string) (servers : list Server) (w : World) :
  (∀ s, s ∈ servers → name s = key → primary_disk_size s = Some 0%Z) →
  let w' := after (for_each servers (check_step config fails) w) in
  notified_thresholds w' !! key = notified_thresholds w !! key ∧
  (∀ x, name x = key → x ∈ cloud w' ↔ x ∈ cloud w) ∧
  ∃ events,
    trace w' = trace w ++ events ∧
    ∀ ev, ev ∈ events → subject ev = Some key →
          ev = Log ERROR (CheckServerFailed key) ∧
          ∃ s, s ∈ servers ∧ name s = key.
Proof.
  intros Hzero.
  apply (for_each_preserves (check_step config fails)
           (fun w w' =>
              notified_thresholds w' !! key = notified_thresholds w !! key ∧
              (∀ x, name x = key → x ∈ cloud w' ↔ x ∈ cloud w) ∧
              ∃ events,
                trace w' = trace w ++ events ∧
                ∀ ev, ev ∈ events → subject ev = Some key →
                      ev = Log ERROR (CheckServerFailed key) ∧
                      ∃ s, s ∈ servers ∧ name s = key)).
  - intros w0. split_and!; try done. exists []. rewrite app_nil_r.
    split; [done|]. intros ev Hin. by apply elem_of_nil in Hin.
  - intros w1 w2 w3 (Hn1 & Hc1 & ev1 & Ht1 & He1) (Hn2 & Hc2 & ev2 & Ht2 & He2).
    split_and!.
    + by rewrite Hn2.
    + intros x Hx. by rewrite Hc2, Hc1.
    + exists (ev1 ++ ev2). split; [by rewrite Ht2, Ht1, app_assoc|].
      intros ev [Hin|Hin]%elem_of_app; eauto.
  - intros s w0 Hs. split; [apply check_step_returns|].
    destruct (check_step_quiet key s w0 (Hzero s Hs)) as (Hn & Hc & ev & Ht & He).
    split_and!; try done. exists ev. split; [done|].
    intros e Hin Hsubject. destruct (He e Hin Hsubject) as [-> Hname].
    split; [done|]. by exists s.
Qed.

(** With the limit above 50, a turn leaves the servers alone and its events
    are calm. *)
Lemma check_step_calm (server : Server) (w : World) :
  (50 < traffic_limit_percent config)%Q →
  let w' := after (check_step config fails server w) in
  cloud w' = cloud w ∧ ∃ events, trace w' = trace w ++ events ∧ Forall calm events.
Proof.
  intros Hlimit w'. subst w'.
  destruct (check_step_shape config fails server w)
    as (probe & warn & rest & u & Htrace & Hu & Hprobe & _ & Hwarn & _ & Hunder & _).
  assert (Hcalm : rest = [] ∧ cloud (after (check_step config fails server w)) = cloud w).
  { apply Hunder. eapply Qle_lt_trans; eauto. }
  destruct Hcalm as [-> Hcloud]. split; [done|].
  eexists. split; [done|]. rewrite app_nil_r. apply Forall_app. split.
  - destruct Hprobe as [->|[->|[-> _]]]; by repeat constructor.
  - destruct Hwarn as [->|(t & -> & Ht & _)]; [constructor|].
    apply warning_events_calm. eapply Qle_trans; eauto.
Qed.

Lemma check_loop_calm (servers : list Server) (w : World) :
  (50 < traffic_limit_percent config)%Q →
  let w' := after (for_each servers (check_step config fails) w) in
  cloud w' = cloud w ∧ ∃ events, trace w' = trace w ++ events ∧ Forall calm events.
Proof.
  intros Hlimit.
  apply (for_each_preserves (check_step config fails)
           (fun w w' => cloud w' = cloud w ∧
                        ∃ events, trace w' = trace w ++ events ∧ Forall calm events)).
  - intros w0. split; [done|]. exists []. by rewrite app_nil_r.
  - intros w1 w2 w3 (Hc1 & ev1 & Ht1 & He1) (Hc2 & ev2 & Ht2 & He2).
    split; [congruence|]. exists (ev1 ++ ev2).
    split; [by rewrite Ht2, Ht1, app_assoc|]. by apply Forall_app.
  - intros s w0 _. split; [apply check_step_returns|]. by apply check_step_calm.
Qed.

(** The events and the world of a whole pass: those of the start, then
    those of the loop over the listing (empty when the listing raises). *)
Lemma check_traffic_and_notify_loop (w : World) :
  ∃ start servers,
    (start = [Log INFO CheckStarted; GetAll] ∧ servers = cloud w
     ∨ start = [Log INFO CheckStarted; GetAll; Log ERROR ListServersFailed] ∧
       servers = []) ∧
    check_traffic_and_notify config fails w
    = for_each servers (check_step config fails)
        (mkWorld (notified_thresholds w) (cloud w) (trace w ++ start)).
Proof.
  destruct (fails (trace w ++ [Log INFO CheckStarted]) GetAll) eqn:Hlist.
  - eexists _, []. split; [by right|].
    by rewrite check_traffic_and_notify_unlisted.
  - eexists _, _. split; [by left|].
    by rewrite check_traffic_and_notify_lists.
Qed.

End Loops.

(** ** Properties of the traffic pass *)

(** X2: when the listing of the servers raises, both scheduled jobs only
    log: [check_traffic_and_notify] and [shutdown_servers] return [None],
    touch no server and no threshold, and leave the start record, the
    listing call and the error record in the trace. *)
Theorem failed_listing_only_logs (config : Config)
    (fails : list Event → Event → bool) (w : World) :
  (fails (trace w ++ [Log INFO CheckStarted]) GetAll = true →
   check_traffic_and_notify config fails w
   = (Ok PyNone,
      mkWorld (notified_thresholds w) (cloud w)
        (trace w ++ [Log INFO CheckStarted; GetAll; Log ERROR ListServersFailed])))
  ∧ (fails (trace w ++ [Log INFO ShutdownStarted]) GetAll = true →
     shutdown_servers fails w
     = (Ok PyNone,
        mkWorld (notified_thresholds w) (cloud w)
          (trace w ++ [Log INFO ShutdownStarted; GetAll; Log ERROR ListServersFailed]))).
Proof.
  split; intros Hlist.
  - by apply check_traffic_and_notify_unlisted.
  - unfold shutdown_servers, get_all_servers, servers_get_all. run_monad.
    rewrite Hlist. simpl. by rewrite <- !app_assoc.
Qed.

Lemma failed_listing_only_logs_example :
  check_traffic_and_notify staged_config listing_fails three_servers
  = (Ok PyNone,
     mkWorld ∅ (cloud three_servers)
       [Log INFO CheckStarted; GetAll; Log ERROR ListServersFailed])
  ∧ shutdown_servers listing_fails three_servers
    = (Ok PyNone,
       mkWorld ∅ (cloud three_servers)
         [Log INFO ShutdownStarted; GetAll; Log ERROR ListServersFailed]).
Proof.
  destruct (failed_listing_only_logs staged_config listing_fails three_servers)
    as [Hcheck Hshut].
  split; [apply Hcheck|apply Hshut]; reflexivity.
Defined.

(** X3: a server whose disk size is 0 makes the division of the sample
    raise; the pass skips it.  When every listed server called [key] has
    disk size 0, a pass leaves the entry of [key] and the servers called
    [key] as they were, and the only thing it says about [key] is the error
    record of the skipped turn: no warning, no alert, no lookup, no delete,
    whatever the limit and the thresholds. *)
Theorem zero_disk_server_is_skipped (config : Config)
    (fails : list Event → Event → bool) (key : string) (w : World) :
  (∀ s, s ∈ cloud w → name s = key → primary_disk_size s = Some 0%Z) →
  let run := check_traffic_and_notify config fails w in
  notified_thresholds (after run) !! key = notified_thresholds w !! key ∧
  (∀ x, name x = key → x ∈ cloud (after run) ↔ x ∈ cloud w) ∧
  (∀ ev, ev ∈ new_events w (after run) → subject ev = Some key →
         ev = Log ERROR (CheckServerFailed key)).
Proof.
  intros Hzero run. subst run.
  destruct (check_traffic_and_notify_loop config fails w)
    as (start & servers & Hstart & ->).
  set (w0 := mkWorld (notified_thresholds w) (cloud w) (trace w ++ start)).
  destruct (check_loop_quiet config fails key servers w0)
    as (Hnotified & Hcloud & events & Htrace & Hevents).
  { intros s Hs. apply Hzero.
    destruct Hstart as [[_ ->]|[_ ->]]; [done|by apply elem_of_nil in Hs]. }
  split_and!; [done..|].
  intros ev Hin Hsubject.
  erewrite new_events_app in Hin; [|by rewrite Htrace; unfold w0; simpl;
                                     rewrite <- app_assoc].
  apply elem_of_app in Hin as [Hin|Hin]; [|by apply (Hevents ev Hin Hsubject)].
  destruct Hstart as [[-> _]|[-> _]];
    repeat (apply elem_of_cons in Hin as [->|Hin]; [done|]);
    by apply elem_of_nil in Hin.
Qed.

Lemma zero_disk_server_is_skipped_example :
  let config := example_config [10; 20; 30; 50]%Q 0%Q in
  let w := mkWorld ∅ [diskless] [] in
  let run := check_traffic_and_notify config never_fails w in
  new_events w (after run)
    = [Log INFO CheckStarted; GetAll; Log ERROR (CheckServerFailed "web0")] ∧
  notified_thresholds (after run) !! "web0" = None ∧
  (∀ x, name x = "web0" → x ∈ cloud (after run) ↔ x ∈ [diskless]) ∧
  (∀ ev, ev ∈ new_events w (after run) → subject ev = Some "web0" →
         ev = Log ERROR (CheckServerFailed "web0")).
Proof.
  intros config w run. split; [reflexivity|].
  apply (zero_disk_server_is_skipped config never_fails "web0" w).
  intros s Hs _. apply list_elem_of_singleton in Hs. by subst.
Defined.

(** X4: a pass never cleans up: for a name that no listed server has, it
    leaves the entry in [notified_thresholds] as it was (the threshold of a
    server that is gone is remembered) and makes no call and writes no record
    about that name. *)
Theorem unlisted_server_keeps_its_entry (config : Config)
    (fails : list Event → Event → bool) (key : string) (w : World) :
  (∀ s, s ∈ cloud w → name s ≠ key) →
  let run := check_traffic_and_notify config fails w in
  notified_thresholds (after run) !! key = notified_thresholds w !! key ∧
  (∀ ev, ev ∈ new_events w (after run) → subject ev ≠ Some key).
Proof.
  intros Habsent run. subst run.
  destruct (check_traffic_and_notify_loop config fails w)
    as (start & servers & Hstart & ->).
  set (w0 := mkWorld (notified_thresholds w) (cloud w) (trace w ++ start)).
  assert (Hservers : ∀ s, s ∈ servers → name s ≠ key).
  { intros s Hs. apply Habsent.
    destruct Hstart as [[_ ->]|[_ ->]]; [done|by apply elem_of_nil in Hs]. }
  destruct (check_loop_quiet config fails key servers w0)
    as (Hnotified & _ & events & Htrace & Hevents).
  { intros s Hs Hname. by destruct (Hservers s Hs). }
  split; [done|].
  intros ev Hin Hsubject.
  erewrite new_events_app in Hin; [|by rewrite Htrace; unfold w0; simpl;
                                     rewrite <- app_assoc].
  apply elem_of_app in Hin as [Hin|Hin].
  - destruct Hstart as [[-> _]|[-> _]];
      repeat (apply elem_of_cons in Hin as [->|Hin]; [done|]);
      by apply elem_of_nil in Hin.
  - destruct (Hevents ev Hin Hsubject) as (_ & s & Hs & Hname).
    by destruct (Hservers s Hs).
Qed.

Lemma unlisted_server_keeps_its_entry_example :
  let run := check_traffic_and_notify staged_config never_fails stale_world in
  notified_thresholds (after run) !! "gone" = Some 50%Q ∧
  (∀ ev, ev ∈ new_events stale_world (after run) → subject ev ≠ Some "gone").
Proof.
  apply (unlisted_server_keeps_its_entry staged_config never_fails "gone" stale_world).
  intros s Hs. apply list_elem_of_singleton in Hs. by subst.
Defined.

(** X5: the probe is a stub that samples every server at 500 GB used of
    1000 GB per GB of disk, so no sample is above 50 percent.  With the limit
    above 50 a pass therefore never looks up or deletes a server, never sends
    the "traffic exceeded" alert, keeps the servers as they are, and reaches
    no threshold above 50. *)
Theorem limit_above_50_is_never_reached (config : Config)
    (fails : list Event → Event → bool) (w : World) :
  (50 < traffic_limit_percent config)%Q →
  let run := check_traffic_and_notify config fails w in
  let events := new_events w (after run) in
  cloud (after run) = cloud w ∧
  (∀ n, GetByName n ∉ events) ∧
  (∀ n, Delete n ∉ events) ∧
  (∀ n q, SendMessage (TrafficExceeded n q) ∉ events) ∧
  (∀ n t, Log INFO (ThresholdReached n t) ∈ events → (t <= 50)%Q).
Proof.
  intros Hlimit run events. subst events run.
  destruct (check_traffic_and_notify_loop config fails w)
    as (start & servers & Hstart & ->).
  set (w0 := mkWorld (notified_thresholds w) (cloud w) (trace w ++ start)).
  destruct (check_loop_calm config fails servers w0 Hlimit)
    as (Hcloud & events & Htrace & Hcalm).
  erewrite new_events_app; [|by rewrite Htrace; unfold w0; simpl;
                               rewrite <- app_assoc].
  assert (Hall : Forall calm (start ++ events)).
  { apply Forall_app. split; [|done].
    destruct Hstart as [[-> _]|[-> _]]; by repeat constructor. }
  rewrite Forall_forall in Hall.
  split_and!; [done|..].
  - intros n Hin. by apply Hall in Hin.
  - intros n Hin. by apply Hall in Hin.
  - intros n q Hin. by apply Hall in Hin.
  - intros n t Hin. by apply Hall in Hin.
Qed.

Lemma limit_above_50_is_never_reached_example :
  let w := mkWorld ∅ [server_named "A"; diskless; server_named "C"] [] in
  let run := check_traffic_and_notify staged_config delete_fails w in
  let events := new_events w (after run) in
  cloud (after run) = cloud w ∧
  (∀ n, GetByName n ∉ events) ∧
  (∀ n, Delete n ∉ events) ∧
  (∀ n q, SendMessage (TrafficExceeded n q) ∉ events) ∧
  (∀ n t, Log INFO (ThresholdReached n t) ∈ events → (t <= 50)%Q).
Proof.
  intros w.
  apply (limit_above_50_is_never_reached staged_config delete_fails w).
  simpl. lra.
Defined.

(** X6: a pass warns at most once per server: when the listed servers have
    different names, each pass reaches at most one threshold for each name,
    however many thresholds the usage has passed. *)
Theorem one_warning_per_server_per_pass (config : Config)
    (fails : list Event → Event → bool) (key : string) (w : World) :
  NoDup (map name (cloud w)) →
  let run := check_traffic_and_notify config fails w in
  (length (thresholds_reached key (new_events w (after run))) ≤ 1)%nat.
Proof.
  intros Hnodup run. subst run.
  destruct (check_traffic_and_notify_loop config fails w)
    as (start & servers & Hstart & ->).
  set (w0 := mkWorld (notified_thresholds w) (cloud w) (trace w ++ start)).
  destruct (check_loop_reaches config fails key servers w0)
    as (events & Htrace & Hlen).
  erewrite new_events_app; [|by rewrite Htrace; unfold w0; simpl;
                               rewrite <- app_assoc].
  rewrite thresholds_reached_app.
  assert (thresholds_reached key start = []) as ->
    by (destruct Hstart as [[-> _]|[-> _]]; done).
  simpl. etrans; [exact Hlen|].
  destruct Hstart as [[_ ->]|[_ ->]]; [by apply named_at_most_one|simpl; lia].
Qed.

Lemma one_warning_per_server_per_pass_example :
  let w := mkWorld ∅ [one_gb_server "A"; one_gb_server "B"] [] in
  let run := check_traffic_and_notify staged_config never_fails w in
  thresholds_reached "A" (new_events w (after run)) = [10%Q] ∧
  (length (thresholds_reached "A" (new_events w (after run))) ≤ 1)%nat.
Proof.
  intros w run. split; [reflexivity|].
  apply (one_warning_per_server_per_pass staged_config never_fails "A" w).
  simpl. repeat constructor; not_among.
Defined.

(** ** The [/stop] command *)

Lemma no_space_cons (c : ascii) (text : string) :
  no_space (String c text) ↔ c ≠ " "%char ∧ no_space text.
Proof.
  unfold no_space. simpl. rewrite not_elem_of_cons. split; intros [? ?]; done.
Qed.

(** X7: the argument of a command is what follows the first space of the
    text, spaces included; there is none exactly when the text has no
    space. *)
Theorem after_first_space_splits (text : string) :
  (∀ rest, after_first_space text = Some rest
           ↔ ∃ cmd, no_space cmd ∧ text = String.append cmd (String " " rest)) ∧
  (after_first_space text = None ↔ no_space text).
Proof.
  induction text as [|c text [IHsome IHnone]].
  - split.
    + intros rest. split; [done|]. intros (cmd & _ & Heq). by destruct cmd.
    + split; [|done]. intros _. apply not_elem_of_nil.
  - simpl. destruct (Ascii.eqb c " ") eqn:Hc.
    + apply Ascii.eqb_eq in Hc. subst c. split.
      * intros rest. split.
        -- intros [= ->]. exists EmptyString. split; [apply not_elem_of_nil|done].
        -- intros (cmd & Hcmd & Heq). destruct cmd as [|c' cmd]; simpl in Heq.
           ++ by inversion Heq.
           ++ inversion Heq. subst c'. apply no_space_cons in Hcmd. by destruct Hcmd.
      * split; [done|]. intros Hno. apply no_space_cons in Hno. by destruct Hno.
    + apply Ascii.eqb_neq in Hc. split.
      * intros rest. rewrite IHsome. split.
        -- intros (cmd & Hcmd & ->). exists (String c cmd).
           split; [by apply no_space_cons|done].
        -- intros (cmd & Hcmd & Heq). destruct cmd as [|c' cmd]; simpl in Heq.
           ++ inversion Heq. by subst c.
           ++ inversion Heq. subst c'. apply no_space_cons in Hcmd as [_ Hcmd].
              by exists cmd.
      * rewrite IHnone, no_space_cons. tauto.
Qed.

Lemma after_first_space_of_command (cmd arg : string) :
  no_space cmd → after_first_space (String.append cmd (String " " arg)) = Some arg.
Proof.
  induction cmd as [|c cmd IH]; [done|].
  intros [Hc Hcmd]%no_space_cons. simpl.
  apply Ascii.eqb_neq in Hc. rewrite Hc. by apply IH.
Qed.

Lemma after_first_space_without_space (text : string) :
  no_space text → after_first_space text = None.
Proof.
  induction text as [|c text IH]; [done|].
  intros [Hc Htext]%no_space_cons. simpl.
  apply Ascii.eqb_neq in Hc. rewrite Hc. by apply IH.
Qed.

(** X8: a [/stop] without a server name makes no call to the provider: it
    only replies with the usage line, and leaves servers and thresholds as
    they were.  If that reply raises, the exception leaves the handler. *)
Theorem stop_without_name_replies_usage (fails : list Event → Event → bool)
    (message_text : string) (w : World) :
  no_space message_text →
  let run := stop_server fails message_text w in
  new_events w (after run) = [ReplyTo StopUsage] ∧
  cloud (after run) = cloud w ∧
  notified_thresholds (after run) = notified_thresholds w ∧
  result run = (if fails (trace w) (ReplyTo StopUsage)
                then Raised TelegramException else Ok PyNone).
Proof.
  intros Hno run. subst run.
  unfold stop_server. rewrite after_first_space_without_space by done.
  run_monad. destruct (fails (trace w) (ReplyTo StopUsage));
    unfold result, after; simpl; split_and!; try done; by apply new_events_app.
Qed.

Lemma stop_without_name_replies_usage_example :
  let w := mkWorld {["web1" := 50%Q]} [web1] [] in
  let run := stop_server telegram_fails "/stop" w in
  new_events w (after run) = [ReplyTo StopUsage] ∧
  cloud (after run) = [web1] ∧
  notified_thresholds (after run) = {["web1" := 50%Q]} ∧
  result run = Raised TelegramException.
Proof.
  intros w.
  apply (stop_without_name_replies_usage telegram_fails "/stop" w).
  unfold no_space. simpl. not_among.
Defined.

(** X9: a [/stop name] is [delete_server name] followed by one reply that
    tells its outcome: "deleted" exactly when [delete_server] returned
    [True], "failed" otherwise.  The servers are as [delete_server] left
    them, the thresholds are untouched, and the handler raises exactly when
    the reply does. *)
Theorem stop_reply_tells_the_outcome (fails : list Event → Event → bool)
    (cmd server_name : string) (w : World) :
  no_space cmd →
  let deletion := delete_server fails server_name w in
  let run := stop_server fails (String.append cmd (String " " server_name)) w in
  let reply :=
    match result deletion with
    | Ok (PyBool true) => StopDeleted server_name
    | _ => StopFailed server_name
    end in
  new_events w (after run) = new_events w (after deletion) ++ [ReplyTo reply] ∧
  cloud (after run) = cloud (after deletion) ∧
  notified_thresholds (after run) = notified_thresholds w ∧
  result run = (if fails (trace (after deletion)) (ReplyTo reply)
                then Raised TelegramException else Ok PyNone).
Proof.
  intros Hcmd. cbv zeta.
  pose proof (delete_server_frame fails server_name w) as Hframe. simpl in Hframe.
  destruct (delete_server fails server_name w) as [o w1] eqn:Hdel.
  destruct Hframe as (Hnotified & [b Hb] & events & Htrace).
  unfold result, after in *. simpl in *. subst o.
  set (reply := if b then StopDeleted server_name else StopFailed server_name).
  assert (Hrun : stop_server fails (String.append cmd (String " " server_name)) w
                 = (if fails (trace w1) (ReplyTo reply)
                    then Raised TelegramException else Ok PyNone,
                    emit (ReplyTo reply) w1)).
  { unfold stop_server. rewrite after_first_space_of_command by done.
    run_monad. rewrite Hdel. unfold reply.
    destruct b; simpl; by destruct (fails (trace w1) _). }
  rewrite Hrun. clear Hrun.
  replace (match b with true => StopDeleted server_name | false => StopFailed server_name end)
    with reply by done.
  assert (Hreply : (if b then StopDeleted server_name else StopFailed server_name) = reply)
    by done.
  destruct b; simpl; rewrite (new_events_app w w1 events) by done;
    (split_and!; [|try done..]);
    try (apply new_events_app; simpl; by rewrite Htrace, <- app_assoc);
    by destruct (fails (trace w1) _).
Qed.

Lemma stop_reply_tells_the_outcome_example :
  let w := mkWorld {["web1" := 50%Q]} [web1] [] in
  let run := stop_server delete_fails "/stop web1" w in
  new_events w (after run)
    = new_events w (after (delete_server delete_fails "web1" w))
        ++ [ReplyTo (StopFailed "web1")] ∧
  cloud (after run) = [web1] ∧
  notified_thresholds (after run) = {["web1" := 50%Q]} ∧
  result run = Ok PyNone.
Proof.
  intros w.
  apply (stop_reply_tells_the_outcome delete_fails "/stop" "web1" w).
  unfold no_space. simpl. not_among.
Defined.

(** ** More on deleting and rebuilding *)

Lemma lookup_server_removed (server_name : string) (w w' : World) :
  cloud w' = without_server server_name (cloud w) →
  lookup_server server_name w' = None.
Proof.
  intros Hcloud. apply lookup_server_absent. intros s Hin.
  rewrite Hcloud in Hin. by apply without_server_elem in Hin as [_ ?].
Qed.

(** X10: a [delete_server] that returns [True] made exactly two calls, the
    lookup and the delete; it removed the servers of that name and no other,
    and left the thresholds alone.  The name is then unknown to the provider,
    so that deleting it once more returns [False]: the operation does not
    report success twice. *)
Theorem delete_server_removes_the_server (fails : list Event → Event → bool)
    (server_name : string) (w : World) :
  let run := delete_server fails server_name w in
  result run = Ok (PyBool true) →
  new_events w (after run) = [GetByName server_name; Delete server_name] ∧
  (∀ s, s ∈ cloud (after run) ↔ s ∈ cloud w ∧ name s ≠ server_name) ∧
  notified_thresholds (after run) = notified_thresholds w ∧
  lookup_server server_name (after run) = None ∧
  (∀ fails', result (delete_server fails' server_name (after run))
             = Ok (PyBool false)).
Proof.
  intros run. subst run. rewrite delete_server_run.
  repeat case_match; unfold result, after; simpl; intros Hres; try done.
  assert (Hgone : ∀ w', cloud w' = without_server server_name (cloud w) →
                        lookup_server server_name w' = None)
    by (intros w'; apply lookup_server_removed).
  split_and!.
  - by apply new_events_app.
  - intros x. apply without_server_elem.
  - done.
  - by apply Hgone.
  - intros fails'. rewrite delete_server_run. rewrite Hgone by done.
    by destruct (fails' _ _).
Qed.

Lemma delete_server_removes_the_server_example :
  let run := delete_server never_fails "B" three_servers in
  new_events three_servers (after run) = [GetByName "B"; Delete "B"] ∧
  (∀ s, s ∈ cloud (after run) ↔ s ∈ cloud three_servers ∧ name s ≠ "B") ∧
  notified_thresholds (after run) = ∅ ∧
  lookup_server "B" (after run) = None ∧
  (∀ fails', result (delete_server fails' "B" (after run)) = Ok (PyBool false)).
Proof.
  apply (delete_server_removes_the_server never_fails "B" three_servers).
  reflexivity.
Defined.

Section Rebuilding.

Variable config : Config.
Variable fails : list Event → Event → bool.
Variable fresh : list Event → Server.

(** All the runs of [rebuild_server]. *)
Lemma rebuild_server_run (server_name : string) (w : World) :
  rebuild_server config fails fresh server_name w =
  let failed := Log ERROR (RebuildServerFailed server_name) in
  if fails (trace w) (GetByName server_name) then
    (Ok (PyBool false),
     mkWorld (notified_thresholds w) (cloud w)
       (trace w ++ [GetByName server_name; failed]))
  else
    match lookup_server server_name w with
    | None =>
        (Ok (PyBool false),
         mkWorld (notified_thresholds w) (cloud w) (trace w ++ [GetByName server_name]))
    | Some server =>
        if fails (trace w ++ [GetByName server_name]) (Delete server_name) then
          (Ok (PyBool false),
           mkWorld (notified_thresholds w) (cloud w)
             (trace w ++ [GetByName server_name; Delete server_name; failed]))
        else if fails (trace w ++ [GetByName server_name; Delete server_name; Sleep 5])
                      (Create (config_of server)) then
          (Ok (PyBool false),
           mkWorld (notified_thresholds w) (without_server server_name (cloud w))
             (trace w ++ [GetByName server_name; Delete server_name; Sleep 5;
                          Create (config_of server); failed]))
        else
          let new_server := rebuilt fresh server (trace w ++ rebuild_calls server) in
          (Ok (PyBool true),
           mkWorld (notified_thresholds w)
             (without_server server_name (cloud w) ++ [new_server])
             (trace w ++ rebuild_calls server
                ++ (if cloudflare_enable config
                    then [dns_record config (ipv4 new_server)] else [])))
    end.
Proof.
  unfold rebuild_server, servers_get_by_name, server_delete, servers_create,
    update_cloudflare_dns.
  run_monad.
  destruct (fails (trace w) (GetByName server_name)) eqn:Hlookup; simpl.
  { by rewrite <- ?app_assoc. }
  fold (lookup_server server_name w).
  destruct (lookup_server server_name w) as [server|] eqn:Hfound; simpl; [|done].
  apply lookup_server_name in Hfound as <-. fold (config_of server).
  destruct (fails (trace w ++ [GetByName (name server)]) (Delete (name server)));
    simpl.
  { by rewrite <- ?app_assoc. }
  rewrite <- !app_assoc. simpl.
  destruct (fails (trace w ++ [GetByName (name server); Delete (name server); Sleep 5])
                  (Create (config_of server))); simpl.
  { by rewrite <- ?app_assoc. }
  unfold rebuilt, rebuild_calls, dns_record, without_server.
  destruct (cloudflare_enable config); simpl; by rewrite <- ?app_assoc.
Qed.

End Rebuilding.



(** X12: rebuilding a name that the provider does not know returns [False]
    after the lookup: nothing is deleted, nothing is created, there is no
    wait, and servers and thresholds are unchanged. *)
Theorem rebuild_of_unknown_server_does_nothing (config : Config)
    (fails : list Event → Event → bool) (fresh : list Event → Server)
    (server_name : string) (w : World) :
  (∀ s, s ∈ cloud w → name s ≠ server_name) →
  let run := rebuild_server config fails fresh server_name w in
  result run = Ok (PyBool false) ∧
  cloud (after run) = cloud w ∧
  notified_thresholds (after run) = notified_thresholds w ∧
  (∀ ev, ev ∈ new_events w (after run) →
         ev = GetByName server_name ∨ ev = Log ERROR (RebuildServerFailed server_name)).
Proof.
  intros Habsent run. subst run.
  apply lookup_server_absent in Habsent.
  rewrite rebuild_server_run, Habsent. cbv zeta.
  destruct (fails (trace w) (GetByName server_name)); unfold result, after; simpl;
    (split_and!; [done..|]); intros ev Hin;
    (erewrite new_events_app in Hin; [|done]);
    repeat (apply elem_of_cons in Hin as [->|Hin]; [by (left + right)|]);
    by apply elem_of_nil in Hin.
Qed.

Lemma rebuild_of_unknown_server_does_nothing_example :
  let run := rebuild_server staged_config never_fails fresh_server "web9" stale_world in
  result run = Ok (PyBool false) ∧
  cloud (after run) = [web1] ∧
  notified_thresholds (after run) = {["gone" := 50%Q]} ∧
  (∀ ev, ev ∈ new_events stale_world (after run) →
         ev = GetByName "web9" ∨ ev = Log ERROR (RebuildServerFailed "web9")).
Proof.
  apply (rebuild_of_unknown_server_does_nothing staged_config never_fails
           fresh_server "web9" stale_world).
  intros s Hs. apply list_elem_of_singleton in Hs. by subst.
Defined.

(** X13: [rebuild_server] never raises and never writes
    [notified_thresholds]: it returns [True] or [False], and the rebuilt
    server keeps the last notified threshold of the one it replaces.  When it
    returns [False] it has added no server. *)
Theorem rebuild_server_keeps_thresholds (config : Config)
    (fails : list Event → Event → bool) (fresh : list Event → Server)
    (server_name : string) (w : World) :
  let run := rebuild_server config fails fresh server_name w in
  (∃ b, result run = Ok (PyBool b)) ∧
  notified_thresholds (after run) = notified_thresholds w ∧
  (result run = Ok (PyBool false) → ∀ s, s ∈ cloud (after run) → s ∈ cloud w).
Proof.
  intros run. subst run. rewrite rebuild_server_run. cbv zeta.
  repeat case_match; unfold result, after; simpl; split_and!;
    try done; try (by eexists).
  intros _ x Hin. by apply without_server_elem in Hin as [? _].
Qed.



(** ** More on samples and the destroy *)

(** X15: when the delete of [handle_traffic_exceeded] returns [True], the
    entry of the server is removed and no other entry changes, the servers of
    that name are gone and no other; a server recreated under the name is
    then staged from the start: the next check fires on the first threshold
    that its usage reaches, as for a server never notified. *)
Theorem policy_destroy_restarts_staging (config : Config)
    (fails : list Event → Event → bool) (server : Server) (usage_percent : Q)
    (w : World) :
  result (delete_server fails (name server) (alerted fails server usage_percent w))
    = Ok (PyBool true) →
  let destroyed := after (handle_traffic_exceeded fails server usage_percent w) in
  notified_thresholds destroyed !! name server = None ∧
  (∀ k, k ≠ name server →
        notified_thresholds destroyed !! k = notified_thresholds w !! k) ∧
  (∀ s, s ∈ cloud destroyed ↔ s ∈ cloud w ∧ name s ≠ name server) ∧
  (∀ recreated usage pre threshold post,
     name recreated = name server →
     notification_thresholds config = pre ++ threshold :: post →
     Forall (fun x => ¬ newly_crossed usage 0 x) pre →
     newly_crossed usage 0 threshold →
     thresholds_reached (name server)
       (new_events destroyed
          (after (check_notification_thresholds config fails recreated usage destroyed)))
     = [threshold]).
Proof.
  intros Hres destroyed.
  destruct (handle_traffic_exceeded_resets fails server usage_percent w Hres)
    as (Hnotified & Hnone & Hlast & _).
  fold destroyed in Hnotified, Hnone, Hlast.
  split_and!.
  - done.
  - intros k Hk. rewrite Hnotified. by rewrite lookup_delete_ne.
  - intros s. subst destroyed. rewrite handle_traffic_exceeded_run, Hres.
    unfold after. cbn [snd cloud].
    destruct (delete_server_effect fails (name server)
                (alerted fails server usage_percent w)) as (_ & _ & Hgone).
    destruct (Hgone Hres) as [_ Hcloud]. unfold after in Hcloud.
    rewrite Hcloud. apply without_server_elem.
  - intros recreated usage pre t post Hname Heq Hpre Ht.
    rewrite <- Hname in *.
    rewrite (check_notification_thresholds_fires config fails recreated usage
               destroyed pre t post) by (rewrite ?Hlast; done).
    unfold after at 1. cbn [snd].
    erewrite new_events_app by done. apply thresholds_reached_warning.
Qed.

Lemma policy_destroy_restarts_staging_example :
  let config := example_config [10; 20; 30; 50]%Q 90%Q in
  let w := mkWorld {["web1" := 50%Q]} [web1] [] in
  let destroyed := after (handle_traffic_exceeded never_fails web1 95%Q w) in
  notified_thresholds destroyed !! "web1" = None ∧
  cloud destroyed = [] ∧
  thresholds_reached "web1"
    (new_events destroyed
       (after (check_notification_thresholds config never_fails web1 55%Q destroyed)))
  = [10%Q].
Proof.
  intros config w destroyed.
  destruct (policy_destroy_restarts_staging config never_fails web1 95%Q w eq_refl)
    as (Hnone & _ & _ & Hstaged).
  split_and!; [exact Hnone|reflexivity|].
  apply (Hstaged web1 55%Q [] 10%Q [20; 30; 50]%Q); [reflexivity..|q_facts|q_facts].
Defined.

(** X16: a sample under the limit can only warn: it makes no lookup and no
    delete, sends no alert, keeps the servers, and changes no entry but that
    of its own server. *)
Theorem sample_under_limit_only_warns (config : Config)
    (fails : list Event → Event → bool) (server : Server) (usage_percent : Q)
    (w : World) :
  (usage_percent < traffic_limit_percent config)%Q →
  let run := process_sample config fails server usage_percent w in
  let events := new_events w (after run) in
  result run = Ok PyNone ∧
  cloud (after run) = cloud w ∧
  (∀ n, GetByName n ∉ events) ∧
  (∀ n, Delete n ∉ events) ∧
  (∀ n q, SendMessage (TrafficExceeded n q) ∉ events) ∧
  (∀ k, k ≠ name server →
        notified_thresholds (after run) !! k = notified_thresholds w !! k).
Proof.
  intros Hunder run events. subst events run.
  rewrite process_sample_under_limit by done.
  destruct (check_notification_thresholds_quiet config fails server usage_percent w)
    as (Hres & Hcloud & events & Htrace & Hlookup & Hdelete & Halert).
  destruct (check_notification_thresholds_shape config fails server usage_percent w)
    as (_ & _ & _ & _ & Hothers).
  rewrite (new_events_app _ _ _ Htrace). by split_and!.
Qed.

Lemma sample_under_limit_only_warns_example :
  let w := mkWorld {["web1" := 50%Q]} [web1] [] in
  let run := process_sample staged_config never_fails web1 85%Q w in
  let events := new_events w (after run) in
  result run = Ok PyNone ∧
  cloud (after run) = [web1] ∧
  (∀ n, GetByName n ∉ events) ∧
  (∀ n, Delete n ∉ events) ∧
  (∀ n q, SendMessage (TrafficExceeded n q) ∉ events) ∧
  (∀ k, k ≠ "web1" →
        notified_thresholds (after run) !! k = notified_thresholds w !! k).
Proof.
  intros w.
  apply (sample_under_limit_only_warns staged_config never_fails web1 85%Q w).
  simpl. lra.
Defined.

(** X17: a Telegram failure does not hold up the destroy.  When the alert
    of [handle_traffic_exceeded] cannot be sent, the failure is logged and
    the delete goes ahead: with the server known and the provider answering,
    the server is removed and its entry reset. *)
Theorem alert_failure_does_not_block_destroy (fails : list Event → Event → bool)
    (server : Server) (usage_percent : Q) (w : World) :
  let at_delete := alerted fails server usage_percent w in
  fails (trace w) (SendMessage (TrafficExceeded (name server) usage_percent)) = true →
  lookup_server (name server) w = Some server →
  fails (trace at_delete) (GetByName (name server)) = false →
  fails (trace at_delete ++ [GetByName (name server)]) (Delete (name server)) = false →
  let run := handle_traffic_exceeded fails server usage_percent w in
  result run = Ok PyNone ∧
  new_events w (after run)
    = [SendMessage (TrafficExceeded (name server) usage_percent);
       Log ERROR TelegramFailed; Log WARNING (LimitExceeded (name server));
       GetByName (name server); Delete (name server);
       Log INFO (ServerDeleted (name server))] ∧
  cloud (after run) = without_server (name server) (cloud w) ∧
  notified_thresholds (after run) = delete (name server) (notified_thresholds w).
Proof.
  intros at_delete Hsend Hfound Hlookup Hdelete run. subst run.
  rewrite handle_traffic_exceeded_run, delete_server_run.
  fold at_delete. rewrite Hlookup.
  assert (lookup_server (name server) at_delete = Some server) as -> by done.
  rewrite Hdelete. unfold result, after. simpl.
  split_and!; try done.
  apply new_events_app. unfold telegram_errors. rewrite Hsend.
  by rewrite <- !app_assoc.
Qed.

Lemma alert_failure_does_not_block_destroy_example :
  let w := mkWorld {["web1" := 50%Q]} [web1] [] in
  let run := handle_traffic_exceeded telegram_fails web1 95%Q w in
  result run = Ok PyNone ∧
  new_events w (after run)
    = [SendMessage (TrafficExceeded "web1" 95%Q);
       Log ERROR TelegramFailed; Log WARNING (LimitExceeded "web1");
       GetByName "web1"; Delete "web1"; Log INFO (ServerDeleted "web1")] ∧
  cloud (after run) = [] ∧
  notified_thresholds (after run) = delete "web1" {["web1" := 50%Q]}.
Proof.
  intros w.
  by apply (alert_failure_does_not_block_destroy telegram_fails web1 95%Q w).
Defined.

(** ** Counting the warnings *)

Lemma increasing_NoDup (l : list Q) : StronglySorted Qlt l → NoDup l.
Proof.
  induction 1 as [|x l _ IH Hall]; [constructor|].
  apply NoDup_cons. split; [|done].
  intros Hin. rewrite Forall_forall in Hall.
  by apply (Qlt_irrefl x), Hall.
Qed.

(** Every threshold reached in a sequence of checks is a configured one. *)
Lemma run_checks_configured (config : Config) (fails : list Event → Event → bool)
    (key : string) (calls : list (Server * Q)) (w : World) :
  ∃ events,
    trace (checks_end config fails calls w) = trace w ++ events ∧
    Forall (fun t => t ∈ notification_thresholds config)
           (thresholds_reached key events).
Proof.
  revert w. induction calls as [|[server usage_percent] rest IH]; intros w.
  - exists []. simpl. by rewrite app_nil_r.
  - simpl.
    destruct (check_notification_thresholds_shape config fails server usage_percent w)
      as (warn & Htrace & Hwarn & _).
    set (w1 := after (check_notification_thresholds config fails server usage_percent w))
      in *.
    destruct (IH w1) as (events & Htrace' & Hall).
    exists (warn ++ events). split; [by rewrite Htrace', Htrace, app_assoc|].
    rewrite thresholds_reached_app. apply Forall_app. split; [|done].
    destruct Hwarn as [->|(t & -> & _ & Ht)]; [constructor|].
    destruct (decide (name server = key)) as [<-|Hne].
    + rewrite thresholds_reached_warning. by repeat constructor.
    + rewrite thresholds_reached_warning_other by done. constructor.
Qed.

(** X18: between resets a server is warned at most once per configured
    threshold: over any sequence of checks, for any servers and usages, the
    thresholds reached for a server are distinct configured thresholds, so
    they are at most as many as the list has. *)
Theorem at_most_one_warning_per_threshold (config : Config)
    (fails : list Event → Event → bool) (key : string)
    (calls : list (Server * Q)) (w : World) :
  let reached :=
    thresholds_reached key (new_events w (checks_end config fails calls w)) in
  NoDup reached ∧
  (∀ t, t ∈ reached → t ∈ notification_thresholds config) ∧
  (length reached ≤ length (notification_thresholds config))%nat.
Proof.
  intros reached. subst reached.
  destruct (run_checks_staging config fails key calls w)
    as (events & Htrace & _ & Hsorted & _).
  destruct (run_checks_configured config fails key calls w)
    as (events' & Htrace' & Hall).
  assert (events' = events) as ->.
  { rewrite Htrace in Htrace'. by apply app_inv_head in Htrace'. }
  rewrite (new_events_app _ _ _ Htrace).
  pose proof (increasing_NoDup _ Hsorted) as Hnodup.
  rewrite Forall_forall in Hall.
  split_and!; [done|done|].
  apply submseteq_length. by apply NoDup_submseteq.
Qed.

(** ** The progress bar *)

(** Truncation toward zero, between bounds. *)
Lemma quot_between (n d lo hi : Z) :
  (0 < d)%Z → (lo <= 0)%Z → (0 <= hi)%Z →
  ((lo - 1) * d < n)%Z → (n < (hi + 1) * d)%Z →
  (lo <= Z.quot n d <= hi)%Z.
Proof.
  intros Hd Hlo Hhi Hlow Hhigh.
  pose proof (Z.quot_rem' n d) as Heq.
  destruct (Z_le_gt_dec 0 n) as [Hn|Hn].
  - pose proof (Z.rem_bound_pos n d Hn Hd). nia.
  - pose proof (Z.rem_bound_pos_neg n d Hd ltac:(lia)). nia.
Qed.

Lemma traffic_bar_length (usage_percent : Q) (filled : Z) :
  py_int (inject_Z 20 * usage_percent / 100)%Q = filled →
  length (traffic_bar usage_percent)
  = (Z.to_nat filled + Z.to_nat (20 - filled))%nat.
Proof.
  intros Hfilled. unfold traffic_bar, py_repeat. cbv zeta. rewrite Hfilled.
  by rewrite length_app, !length_replicate.
Qed.

(** X19: the progress bar of [show_traffic] has 20 cells, the first
    [int(20 * usage / 100)] of them full, as long as the usage is above -5
    and below 105 percent; from 105 percent on the bar overflows: it has only
    full cells, more than 20 of them. *)
Theorem traffic_bar_has_20_cells (usage_percent : Q) :
  let filled := py_int (inject_Z 20 * usage_percent / 100)%Q in
  ((-5 < usage_percent)%Q → (usage_percent < 105)%Q →
   (0 <= filled <= 20)%Z ∧
   traffic_bar usage_percent
   = replicate (Z.to_nat filled) Full ++ replicate (20 - Z.to_nat filled) Empty ∧
   length (traffic_bar usage_percent) = 20%nat)
  ∧ ((105 <= usage_percent)%Q →
     (21 <= filled)%Z ∧
     traffic_bar usage_percent = replicate (Z.to_nat filled) Full ∧
     (20 < length (traffic_bar usage_percent))%nat).
Proof.
  intros filled.
  destruct usage_percent as [a b].
  assert (Hfilled : filled = Z.quot (20 * a * 1) (Z.pos (1 * b * 100))) by done.
  split.
  - intros Hlow Hhigh.
    unfold Qlt in Hlow, Hhigh. simpl in Hlow, Hhigh.
    assert (Hrange : (0 <= filled <= 20)%Z).
    { rewrite Hfilled. apply quot_between; lia. }
    split; [done|].
    unfold traffic_bar, py_repeat. cbv zeta. fold filled.
    replace (Z.to_nat (20 - filled)) with (20 - Z.to_nat filled)%nat by lia.
    split; [done|].
    rewrite length_app, !length_replicate. lia.
  - intros Hover. unfold Qle in Hover. simpl in Hover.
    assert (Hrange : (21 <= filled)%Z).
    { rewrite Hfilled. apply Z.quot_le_lower_bound; lia. }
    split; [done|].
    unfold traffic_bar, py_repeat. cbv zeta. fold filled.
    replace (Z.to_nat (20 - filled)) with 0%nat by lia.
    simpl. rewrite app_nil_r. split; [done|].
    rewrite length_replicate. lia.
Qed.

Lemma traffic_bar_has_20_cells_example :
  (traffic_bar 50%Q = replicate 10 Full ++ replicate 10 Empty ∧
   length (traffic_bar 50%Q) = 20%nat)
  ∧ (traffic_bar 110%Q = replicate 22 Full ∧
     (20 < length (traffic_bar 110%Q))%nat).
Proof.
  destruct (traffic_bar_has_20_cells 50%Q) as [Hin _].
  destruct (traffic_bar_has_20_cells 110%Q) as [_ Hover].
  split.
  - destruct Hin as (_ & Hbar & Hlen); [lra|lra|]. by split.
  - destruct Hover as (_ & Hbar & Hlen); [lra|]. by split.
Defined.

(** ** What a pass does to the servers *)

Lemma same_name_same_server (servers : list Server) (x y : Server) :
  NoDup (map name servers) → x ∈ servers → y ∈ servers → name x = name y → x = y.
Proof.
  induction servers as [|a servers IH]; intros Hnodup Hx Hy Hname.
  - by apply elem_of_nil in Hx.
  - simpl in Hnodup. apply NoDup_cons in Hnodup as [Hfresh Hnodup].
    assert (Hin : ∀ z, z ∈ servers → name z ∈ map name servers).
    { intros z Hz. apply list_elem_of_In, in_map. by apply list_elem_of_In. }
    apply elem_of_cons in Hx as [->|Hx]; apply elem_of_cons in Hy as [->|Hy].
    + done.
    + destruct Hfresh. rewrite Hname. by apply Hin.
    + destruct Hfresh. rewrite <- Hname. by apply Hin.
    + by apply IH.
Qed.

Section Fleet.

Variable config : Config.
Variable fails : list Event → Event → bool.
Hypothesis provider_answers : answers fails.

(** With a provider that answers, a sample at or over the limit of a server
    that exists deletes it and resets its entry. *)
Lemma process_sample_destroys (server : Server) (usage_percent : Q) (w : World) :
  (traffic_limit_percent config <= usage_percent)%Q →
  server ∈ cloud w →
  let w' := after (process_sample config fails server usage_percent w) in
  cloud w' = without_server (name server) (cloud w) ∧
  notified_thresholds w' !! name server = None.
Proof.
  intros Hlimit Hin w'. subst w'.
  rewrite process_sample_over_limit by done.
  destruct (check_notification_thresholds_quiet config fails server usage_percent w)
    as (_ & Hcloud & _).
  set (checked := after (check_notification_thresholds config fails server
                           usage_percent w)) in *.
  rewrite handle_traffic_exceeded_run, delete_server_run.
  set (at_delete := alerted fails server usage_percent checked).
  destruct (provider_answers (trace at_delete)) as [_ Hcalls].
  destruct (Hcalls (name server)) as [-> _].
  destruct (provider_answers (trace at_delete ++ [GetByName (name server)]))
    as [_ Hcalls'].
  destruct (Hcalls' (name server)) as [_ ->].
  assert (Hfound : is_Some (lookup_server (name server) at_delete)).
  { apply lookup_server_present. unfold at_delete, alerted. simpl. by rewrite Hcloud. }
  destruct Hfound as [found ->].
  unfold result, after. simpl. fold checked. rewrite lookup_delete_eq.
  split; [|done]. unfold after in Hcloud. by rewrite Hcloud.
Qed.

(** One turn of the pass on a server that exists: the server is deleted and
    its entry reset exactly when its sample is at or over the limit. *)
Lemma check_step_effect (server : Server) (w : World) :
  server ∈ cloud w →
  let w' := after (check_step config fails server w) in
  cloud w'
    = (if over_limit config server then without_server (name server) (cloud w)
       else cloud w) ∧
  (over_limit config server = true → notified_thresholds w' !! name server = None).
Proof.
  intros Hin w'. subst w'. rewrite check_step_run. unfold over_limit.
  assert (Hsample : ∀ u w0, cloud w0 = cloud w →
            let w' := after (process_sample config fails server u w0) in
            cloud w'
              = (if Qle_bool (traffic_limit_percent config) u
                 then without_server (name server) (cloud w) else cloud w) ∧
            (Qle_bool (traffic_limit_percent config) u = true →
               notified_thresholds w' !! name server = None)).
  { intros u w0 Hw0. simpl.
    destruct (Qle_bool (traffic_limit_percent config) u) eqn:Hlimit.
    - apply Qle_bool_iff in Hlimit.
      destruct (process_sample_destroys server u w0 Hlimit) as [Hcloud Hnone];
        [by rewrite Hw0|].
      rewrite Hcloud, Hw0. by split.
    - split; [|done].
      destruct (process_sample_shape config fails server u w0)
        as (warn & rest & _ & _ & _ & Hunder & _).
      rewrite <- Hw0. apply Hunder.
      apply Qnot_le_lt. intros Hle. apply Qle_bool_iff in Hle. congruence. }
  destruct (primary_disk_size server) as [size|].
  - destruct (size * 1000 =? 0)%Z; simpl; [done|]. by apply Hsample.
  - by apply Hsample.
Qed.

(** The loop of the pass over listed servers that exist, all with different
    names. *)
Lemma check_loop_effect (servers : list Server) (w : World) :
  NoDup (map name (cloud w)) →
  NoDup (map name servers) →
  (∀ s, s ∈ servers → s ∈ cloud w) →
  let w' := after (for_each servers (check_step config fails) w) in
  (∀ x, x ∈ cloud w' ↔ x ∈ cloud w ∧ ¬ (x ∈ servers ∧ over_limit config x = true)) ∧
  (∀ s, s ∈ servers → over_limit config s = true →
        notified_thresholds w' !! name s = None).
Proof.
  revert w. induction servers as [|server rest IH]; intros w Hcloud Hnodup Hknown.
  - unfold after. simpl. split.
    + intros x. split; [intros Hx; split; [done|]|by intros [? _]].
      intros [Hin _]. by apply elem_of_nil in Hin.
    + intros s Hs. by apply elem_of_nil in Hs.
  - simpl in Hnodup. apply NoDup_cons in Hnodup as [Hfresh Hnodup].
    assert (Hhere : server ∈ cloud w) by (apply Hknown; apply list_elem_of_here).
    destruct (check_step_effect server w Hhere) as [Hcloud1 Hreset].
    cbv zeta.
    assert (Hrun : for_each (server :: rest) (check_step config fails) w
                   = for_each rest (check_step config fails)
                       (after (check_step config fails server w))).
    { simpl. unfold bind, after.
      pose proof (check_step_returns config fails server w) as Hres.
      destruct (check_step config fails server w) as [o w1].
      unfold result in Hres. simpl in *. by subst o. }
    rewrite Hrun. clear Hrun.
    set (w1 := after (check_step config fails server w)) in *.
    assert (Hdiff : ∀ s, s ∈ rest → name s ≠ name server).
    { intros s Hs Heq. apply Hfresh. rewrite <- Heq.
      apply list_elem_of_In, in_map. by apply list_elem_of_In. }
    assert (Hrest : ∀ s, s ∈ rest → s ∈ cloud w1).
    { intros s Hs. rewrite Hcloud1.
      assert (s ∈ cloud w) by (apply Hknown; by apply list_elem_of_further).
      destruct (over_limit config server); [|done].
      apply without_server_elem. split; [done|]. by apply Hdiff. }
    assert (Hcloud' : NoDup (map name (cloud w1))).
    { rewrite Hcloud1. destruct (over_limit config server); [|done].
      by apply without_server_NoDup. }
    destruct (IH w1 Hcloud' Hnodup Hrest) as [Hleft Hresets].
    split.
    + intros x. rewrite Hleft, Hcloud1.
      destruct (over_limit config server) eqn:Hover.
      * rewrite without_server_elem. split.
        -- intros [[Hx Hname] Hnot]. split; [done|].
           intros [[->|Hin]%elem_of_cons Hx']; [done|]. by apply Hnot.
        -- intros [Hx Hnot]. split_and!; [done| |].
           ++ intros Hname. apply Hnot.
              assert (x = server) as ->
                by by apply (same_name_same_server (cloud w)).
              split; [apply list_elem_of_here|done].
           ++ intros [Hin Hx']. apply Hnot.
              split; [by apply list_elem_of_further|done].
      * split.
        -- intros [Hx Hnot]. split; [done|].
           intros [[->|Hin]%elem_of_cons Hx']; [congruence|]. by apply Hnot.
        -- intros [Hx Hnot]. split; [done|].
           intros [Hin Hx']. apply Hnot.
           split; [by apply list_elem_of_further|done].
    + intros s [->|Hs]%elem_of_cons Hover; [|by apply Hresets].
      destruct (check_loop_quiet config fails (name server) rest w1) as [-> _].
      * intros s Hs Hname. by destruct (Hdiff s Hs).
      * by apply Hreset.
Qed.

End Fleet.


